(** * flair: plateau annealing and learning-rate schedules

  A shallow embedding of the schedulers of [flair/training_utils.py]
  ([AnnealOnPlateau]) and [flair/optim.py] ([ExpAnnealLR],
  [ReduceLRWDOnPlateau], [LinearSchedulerWithWarmup]), of the optimizer
  [SGDW] and of the helpers [Result], [convert_labels_to_one_hot] and
  [identify_dynamic_embeddings], followed by the properties proved
  about them.

  Numbers.  Python floats are modelled with exact arithmetic:
  - learning rates, weight decays, factors, floors and [eps] are the
    values the code does arithmetic on; they are rationals ([Q]);
  - monitored metrics and [best] are only ever compared; they are
    [pyfloat]: a rational, one of the two infinities ([best] starts
    at [inf] or [-inf]) or NaN, with the comparisons of Python;
  - the exponential schedule needs a real power and lives in [R].
  Rounding is not modelled. *)

From Stdlib Require Import ZArith QArith Qminmax Lqa Lia List String Bool.
From Stdlib Require Import Reals Lra.
Import ListNotations.

(** ** Python values shared by both source files *)

Module Py.

Inductive exn : Type :=
| ValueError
| TypeError
| IndexError.

(** A method call on an object of state [S]: it returns a value or
    raises, and in both cases leaves the object in some state (what it
    had already assigned when the exception left the method). *)
Inductive outcome (S A : Type) : Type :=
| Returns (a : A) (s : S)
| Raises (e : exn) (s : S).
Arguments Returns {S A} a s.
Arguments Raises {S A} e s.

Definition state_of {S A} (o : outcome S A) : S :=
  match o with Returns _ s => s | Raises _ s => s end.

(** Expressions that may raise before anything is assigned. *)
Definition bind {A B} (m : exn + A) (k : A -> exn + B) : exn + B :=
  match m with inl e => inl e | inr a => k a end.

Inductive pyfloat : Type :=
| NaN
| NInf
| Fin (q : Q)
| PInf.

Definition Qltb (a b : Q) : bool := negb (Qle_bool b a).

(** [a < b] on floats. *)
Definition flt (a b : pyfloat) : bool :=
  match a, b with
  | NaN, _ | _, NaN => false
  | NInf, NInf => false
  | NInf, _ => true
  | _, NInf => false
  | PInf, _ => false
  | Fin _, PInf => true
  | Fin x, Fin y => Qltb x y
  end.

(** [a == b] on floats. *)
Definition feq (a b : pyfloat) : bool :=
  match a, b with
  | NInf, NInf => true
  | PInf, PInf => true
  | Fin x, Fin y => Qeq_bool x y
  | _, _ => false
  end.

(** Truth value of a float: only zero is false. *)
Definition truthy (x : pyfloat) : bool :=
  match x with
  | Fin q => negb (Qeq_bool q 0)
  | _ => true
  end.

(** Truth value of an optional float argument; [None] is false. *)
Definition truthy_opt (x : option pyfloat) : bool :=
  match x with
  | None => false
  | Some v => truthy v
  end.

(** [a < b] where [b] may be [None]: ordering a float against [None]
    raises [TypeError]. *)
Definition lt_opt (a : pyfloat) (b : option pyfloat) : exn + bool :=
  match b with
  | None => inl TypeError
  | Some v => inr (flt a v)
  end.

Definition gt_opt (a : pyfloat) (b : option pyfloat) : exn + bool :=
  match b with
  | None => inl TypeError
  | Some v => inr (flt v a)
  end.

(** The builtin [max(a, b)]: [b] replaces [a] only when [b > a]. *)
Definition max (a b : Q) : Q := if Qltb a b then b else a.

(** A parameter group of an optimizer, with the two entries the
    schedulers read and write. *)
Record param_group : Type := {
  lr : Q;
  weight_decay : Q
}.

Definition set_lr (v : Q) (g : param_group) : param_group :=
  {| lr := v; weight_decay := weight_decay g |}.

Definition set_weight_decay (v : Q) (g : param_group) : param_group :=
  {| lr := lr g; weight_decay := v |}.

Record Optimizer : Type := {
  param_groups : list param_group
}.

(** What a caller may pass where an optimizer is expected. *)
Inductive pyobject : Type :=
| OptimizerObj (o : Optimizer)
| OtherObj.

(** The [min_lr] argument: a scalar, or a list or tuple of scalars. *)
Inductive min_lr_arg : Type :=
| MinLrScalar (q : Q)
| MinLrList (l : list Q).

(** The value a method hands back: [None] when it has no [return]. *)
Inductive pyret : Type :=
| PyNone
| PyBool (b : bool).

End Py.

Import Py.

Notation "x <- m ;; k" := (Py.bind m (fun x => k))
(at level 61, m at next level, right associativity).

(** ** [flair/training_utils.py]: class [AnnealOnPlateau] *)

Module AnnealOnPlateau.

Local Open Scope Z_scope.

(** The instance attributes.  [_last_lr] is absent ([None]) until a
    call of [step] has run to its end. *)
Record t : Type := {
  factor : Q;
  optimizer : Optimizer;
  min_lrs : list Q;
  default_patience : Z;
  effective_patience : Z;
  verbose : bool;
  cooldown : Z;
  cooldown_counter : Z;
  mode : string;
  aux_mode : string;
  best : pyfloat;
  best_aux : option pyfloat;
  num_bad_epochs : Z;
  mode_worse : pyfloat;
  eps : Q;
  last_epoch : Z;
  _last_lr : option (list Q)
}.

(** Attribute assignments [self.x = v]. *)
Definition set_optimizer v (s : t) : t :=
  {| factor := factor s; optimizer := v; min_lrs := min_lrs s; default_patience := default_patience s;
     effective_patience := effective_patience s; verbose := verbose s; cooldown := cooldown s;
     cooldown_counter := cooldown_counter s; mode := mode s; aux_mode := aux_mode s; best := best s;
     best_aux := best_aux s; num_bad_epochs := num_bad_epochs s; mode_worse := mode_worse s;
     eps := eps s; last_epoch := last_epoch s; _last_lr := _last_lr s |}.

Definition set_effective_patience v (s : t) : t :=
  {| factor := factor s; optimizer := optimizer s; min_lrs := min_lrs s; default_patience := default_patience s;
     effective_patience := v; verbose := verbose s; cooldown := cooldown s;
     cooldown_counter := cooldown_counter s; mode := mode s; aux_mode := aux_mode s; best := best s;
     best_aux := best_aux s; num_bad_epochs := num_bad_epochs s; mode_worse := mode_worse s;
     eps := eps s; last_epoch := last_epoch s; _last_lr := _last_lr s |}.

Definition set_cooldown_counter v (s : t) : t :=
  {| factor := factor s; optimizer := optimizer s; min_lrs := min_lrs s; default_patience := default_patience s;
     effective_patience := effective_patience s; verbose := verbose s; cooldown := cooldown s;
     cooldown_counter := v; mode := mode s; aux_mode := aux_mode s; best := best s;
     best_aux := best_aux s; num_bad_epochs := num_bad_epochs s; mode_worse := mode_worse s;
     eps := eps s; last_epoch := last_epoch s; _last_lr := _last_lr s |}.

Definition set_mode v (s : t) : t :=
  {| factor := factor s; optimizer := optimizer s; min_lrs := min_lrs s; default_patience := default_patience s;
     effective_patience := effective_patience s; verbose := verbose s; cooldown := cooldown s;
     cooldown_counter := cooldown_counter s; mode := v; aux_mode := aux_mode s; best := best s;
     best_aux := best_aux s; num_bad_epochs := num_bad_epochs s; mode_worse := mode_worse s;
     eps := eps s; last_epoch := last_epoch s; _last_lr := _last_lr s |}.

Definition set_best v (s : t) : t :=
  {| factor := factor s; optimizer := optimizer s; min_lrs := min_lrs s; default_patience := default_patience s;
     effective_patience := effective_patience s; verbose := verbose s; cooldown := cooldown s;
     cooldown_counter := cooldown_counter s; mode := mode s; aux_mode := aux_mode s; best := v;
     best_aux := best_aux s; num_bad_epochs := num_bad_epochs s; mode_worse := mode_worse s;
     eps := eps s; last_epoch := last_epoch s; _last_lr := _last_lr s |}.

Definition set_best_aux v (s : t) : t :=
  {| factor := factor s; optimizer := optimizer s; min_lrs := min_lrs s; default_patience := default_patience s;
     effective_patience := effective_patience s; verbose := verbose s; cooldown := cooldown s;
     cooldown_counter := cooldown_counter s; mode := mode s; aux_mode := aux_mode s; best := best s;
     best_aux := v; num_bad_epochs := num_bad_epochs s; mode_worse := mode_worse s;
     eps := eps s; last_epoch := last_epoch s; _last_lr := _last_lr s |}.

Definition set_num_bad_epochs v (s : t) : t :=
  {| factor := factor s; optimizer := optimizer s; min_lrs := min_lrs s; default_patience := default_patience s;
     effective_patience := effective_patience s; verbose := verbose s; cooldown := cooldown s;
     cooldown_counter := cooldown_counter s; mode := mode s; aux_mode := aux_mode s; best := best s;
     best_aux := best_aux s; num_bad_epochs := v; mode_worse := mode_worse s;
     eps := eps s; last_epoch := last_epoch s; _last_lr := _last_lr s |}.

Definition set_mode_worse v (s : t) : t :=
  {| factor := factor s; optimizer := optimizer s; min_lrs := min_lrs s; default_patience := default_patience s;
     effective_patience := effective_patience s; verbose := verbose s; cooldown := cooldown s;
     cooldown_counter := cooldown_counter s; mode := mode s; aux_mode := aux_mode s; best := best s;
     best_aux := best_aux s; num_bad_epochs := num_bad_epochs s; mode_worse := v;
     eps := eps s; last_epoch := last_epoch s; _last_lr := _last_lr s |}.

Definition set_last_epoch v (s : t) : t :=
  {| factor := factor s; optimizer := optimizer s; min_lrs := min_lrs s; default_patience := default_patience s;
     effective_patience := effective_patience s; verbose := verbose s; cooldown := cooldown s;
     cooldown_counter := cooldown_counter s; mode := mode s; aux_mode := aux_mode s; best := best s;
     best_aux := best_aux s; num_bad_epochs := num_bad_epochs s; mode_worse := mode_worse s;
     eps := eps s; last_epoch := v; _last_lr := _last_lr s |}.

Definition set__last_lr v (s : t) : t :=
  {| factor := factor s; optimizer := optimizer s; min_lrs := min_lrs s; default_patience := default_patience s;
     effective_patience := effective_patience s; verbose := verbose s; cooldown := cooldown s;
     cooldown_counter := cooldown_counter s; mode := mode s; aux_mode := aux_mode s; best := best s;
     best_aux := best_aux s; num_bad_epochs := num_bad_epochs s; mode_worse := mode_worse s;
     eps := eps s; last_epoch := last_epoch s; _last_lr := v |}.

(** [_init_is_better(mode)]: rejects an unknown mode, otherwise sets
    [mode_worse] and [mode]. *)
Definition _init_is_better (self : t) (mode : string) : exn + t :=
  if negb ((mode =? "min")%string || (mode =? "max")%string) then inl ValueError
  else
    let self := if (mode =? "min")%string then set_mode_worse PInf self
                else set_mode_worse NInf self in
    inr (set_mode mode self).

(** [_reset()]. *)
Definition _reset (self : t) : t :=
  let self := set_best (mode_worse self) self in
  let self := set_cooldown_counter 0 self in
  set_num_bad_epochs 0 self.

(** [__init__(optimizer, mode, aux_mode, factor, patience,
    initial_extra_patience, verbose, cooldown, min_lr, eps)].
    [best] and [mode_worse] are [None] until [_init_is_better] and
    [_reset] assign them; the record is built with the placeholder
    [NaN] there, which no path reads. *)
Definition __init__ (optimizer : pyobject) (mode aux_mode : string) (factor : Q)
    (patience initial_extra_patience : Z) (verbose : bool) (cooldown : Z)
    (min_lr : min_lr_arg) (eps : Q) : exn + t :=
  if Qle_bool 1 factor then inl ValueError
  else
    match optimizer with
    | OtherObj => inl TypeError
    | OptimizerObj opt =>
      min_lrs <-
        match min_lr with
        | MinLrList l =>
          if negb (Nat.eqb (List.length l) (List.length (param_groups opt))) then inl ValueError
          else inr l
        | MinLrScalar q => inr (repeat q (List.length (param_groups opt)))
        end ;;
      let self :=
        {| factor := factor; optimizer := opt; min_lrs := min_lrs;
           default_patience := patience;
           effective_patience := patience + initial_extra_patience;
           verbose := verbose; cooldown := cooldown; cooldown_counter := 0;
           mode := mode; aux_mode := aux_mode; best := NaN; best_aux := None;
           num_bad_epochs := 0; mode_worse := NaN; eps := eps; last_epoch := 0;
           _last_lr := None |} in
      self <- _init_is_better self mode ;;
      inr (_reset self)
    end.

(** The property [in_cooldown]. *)
Definition in_cooldown (self : t) : bool := cooldown_counter self >? 0.

(** The loop of [_reduce_lr] from index [i] on: each group is
    rewritten in place, so when [min_lrs[i]] is out of range the groups
    before [i] keep their new rates. *)
Fixpoint _reduce_lr_loop (factor eps : Q) (min_lrs : list Q) (i : nat)
    (groups : list param_group) : list param_group * option exn :=
  match groups with
  | [] => ([], None)
  | param_group :: rest =>
    match nth_error min_lrs i with
    | None => (param_group :: rest, Some IndexError)
    | Some min_lr =>
      let old_lr := lr param_group in
      let new_lr := Py.max (old_lr * factor)%Q min_lr in
      let param_group :=
        if Qltb eps (old_lr - new_lr)%Q then set_lr new_lr param_group
        else param_group in
      let (rest, e) := _reduce_lr_loop factor eps min_lrs (S i) rest in
      (param_group :: rest, e)
    end
  end.

(** [_reduce_lr(epoch)]; the log line under [verbose] is not modelled. *)
Definition _reduce_lr (self : t) (epoch : Z) : outcome t unit :=
  let (groups, e) :=
    _reduce_lr_loop (factor self) (eps self) (min_lrs self) 0
      (param_groups (optimizer self)) in
  let self := set_optimizer {| param_groups := groups |} self in
  match e with
  | Some e => Raises e self
  | None => Returns tt self
  end.

(** The local variable [is_better] of [step], once both the primary
    comparison and the tie-break have run. *)
Definition step_is_better (self : t) (current : pyfloat)
    (auxiliary_metric : option pyfloat) : exn + bool :=
  let is_better := false in
  let is_better :=
    if (mode self =? "min")%string
    then (if flt current (best self) then true else is_better)
    else is_better in
  let is_better :=
    if (mode self =? "max")%string
    then (if flt (best self) current then true else is_better)
    else is_better in
  match auxiliary_metric with
  | Some current_aux =>
    if feq current (best self) && truthy current_aux then
      is_better <-
        (if (aux_mode self =? "min")%string
         then (c <- lt_opt current_aux (best_aux self) ;;
               inr (if c then true else is_better))
         else inr is_better) ;;
      (if (aux_mode self =? "max")%string
       then (c <- gt_opt current_aux (best_aux self) ;;
             inr (if c then true else is_better))
       else inr is_better)
    else inr is_better
  | None => inr is_better
  end.

(** [step(metric, auxiliary_metric=None)]. *)
Definition step (self : t) (metric : pyfloat) (auxiliary_metric : option pyfloat)
    : outcome t bool :=
  let current := metric in
  let epoch := last_epoch self + 1 in
  let self := set_last_epoch epoch self in
  match step_is_better self current auxiliary_metric with
  | inl e => Raises e self
  | inr is_better =>
    let self :=
      if is_better then
        let self := set_best current self in
        let self :=
          if truthy_opt auxiliary_metric then set_best_aux auxiliary_metric self
          else self in
        set_num_bad_epochs 0 self
      else set_num_bad_epochs (num_bad_epochs self + 1) self in
    let self :=
      if in_cooldown self then
        let self := set_cooldown_counter (cooldown_counter self - 1) self in
        set_num_bad_epochs 0 self
      else self in
    let reduce_learning_rate := num_bad_epochs self >? effective_patience self in
    let after_reduce :=
      if reduce_learning_rate then
        match _reduce_lr self epoch with
        | Raises e self => Raises e self
        | Returns _ self =>
          let self := set_cooldown_counter (cooldown self) self in
          let self := set_num_bad_epochs 0 self in
          Returns tt (set_effective_patience (default_patience self) self)
        end
      else Returns tt self in
    match after_reduce with
    | Raises e self => Raises e self
    | Returns _ self =>
      let self := set__last_lr (Some (map lr (param_groups (optimizer self)))) self in
      Returns reduce_learning_rate self
    end
  end.

(** [state_dict()]: every attribute but [optimizer].  The key
    [_last_lr] is present only once [step] has assigned it. *)
Record state_dict_t : Type := {
  sd_factor : Q;
  sd_min_lrs : list Q;
  sd_default_patience : Z;
  sd_effective_patience : Z;
  sd_verbose : bool;
  sd_cooldown : Z;
  sd_cooldown_counter : Z;
  sd_mode : string;
  sd_aux_mode : string;
  sd_best : pyfloat;
  sd_best_aux : option pyfloat;
  sd_num_bad_epochs : Z;
  sd_mode_worse : pyfloat;
  sd_eps : Q;
  sd_last_epoch : Z;
  sd__last_lr : option (list Q)
}.

Definition state_dict (self : t) : state_dict_t :=
  {| sd_factor := factor self; sd_min_lrs := min_lrs self;
     sd_default_patience := default_patience self;
     sd_effective_patience := effective_patience self;
     sd_verbose := verbose self; sd_cooldown := cooldown self;
     sd_cooldown_counter := cooldown_counter self; sd_mode := mode self;
     sd_aux_mode := aux_mode self; sd_best := best self;
     sd_best_aux := best_aux self; sd_num_bad_epochs := num_bad_epochs self;
     sd_mode_worse := mode_worse self; sd_eps := eps self;
     sd_last_epoch := last_epoch self; sd__last_lr := _last_lr self |}.

(** [load_state_dict(state_dict)]: [__dict__.update] overwrites the
    keys the dictionary has and keeps the others ([optimizer], and
    [_last_lr] when the dictionary lacks it); then [_init_is_better]
    runs on the restored mode. *)
Definition load_state_dict (self : t) (sd : state_dict_t) : exn + t :=
  let self :=
    {| factor := sd_factor sd; optimizer := optimizer self; min_lrs := sd_min_lrs sd;
       default_patience := sd_default_patience sd;
       effective_patience := sd_effective_patience sd;
       verbose := sd_verbose sd; cooldown := sd_cooldown sd;
       cooldown_counter := sd_cooldown_counter sd; mode := sd_mode sd;
       aux_mode := sd_aux_mode sd; best := sd_best sd; best_aux := sd_best_aux sd;
       num_bad_epochs := sd_num_bad_epochs sd; mode_worse := sd_mode_worse sd;
       eps := sd_eps sd; last_epoch := sd_last_epoch sd;
       _last_lr := match sd__last_lr sd with
                   | Some l => Some l
                   | None => _last_lr self
                   end |} in
  _init_is_better self (mode self).

(** A training loop: one [step] per round, on the same object.  The
    outcome of every call is recorded; a call that raised leaves the
    object as it was when the exception left [step], and the loop goes
    on from there. *)
Fixpoint run (self : t) (rounds : list (pyfloat * option pyfloat))
    : list (exn + bool) * t :=
  match rounds with
  | [] => ([], self)
  | (metric, auxiliary_metric) :: rest =>
    match step self metric auxiliary_metric with
    | Returns r self => let (rs, self) := run self rest in (inr r :: rs, self)
    | Raises e self => let (rs, self) := run self rest in (inl e :: rs, self)
    end
  end.

(** *** Vocabulary of the statements below *)

(** Every parameter group has its floor: [min_lrs[i]] is in range for
    each group [_reduce_lr] visits.  [__init__] builds [min_lrs] with
    exactly one entry per group. *)
Definition attached (self : t) : Prop :=
  (List.length (param_groups (optimizer self)) <= List.length (min_lrs self))%nat.

(** [a] is strictly better than [b] under [aux_mode]. *)
Definition aux_better (aux_mode : string) (a b : pyfloat) : Prop :=
  (aux_mode = "min"%string /\ flt a b = true) \/
  (aux_mode = "max"%string /\ flt b a = true).

(** A recorded call that returned [True]: a reduction fired. *)
Definition is_reduction (r : exn + bool) : bool :=
  match r with
  | inr true => true
  | _ => false
  end.

(** The attributes [step] reads or writes for its decision, all but
    the counters it advances on a bad round. *)
Definition frame (a b : t) : Prop :=
  factor b = factor a /\ optimizer b = optimizer a /\ min_lrs b = min_lrs a /\
  default_patience b = default_patience a /\
  effective_patience b = effective_patience a /\
  cooldown b = cooldown a /\ cooldown_counter b = cooldown_counter a /\
  mode b = mode a /\ aux_mode b = aux_mode a /\ best b = best a /\
  best_aux b = best_aux a /\ eps b = eps a.

(** Two objects that agree on every attribute except [mode_worse] and
    [_last_lr], the two that [step] never reads. *)
Definition same_but_unread (a b : t) : Prop :=
  set_mode_worse NaN (set__last_lr None a) = set_mode_worse NaN (set__last_lr None b).

(** What holds of every object [__init__] built, whatever calls of
    [step] followed: each group has its floor, the mode is one of the
    two, and the cooldown counter is 0 unless a reduction has set it,
    in which case the initial extra patience is spent. *)
Definition invariant (s : t) : Prop :=
  attached s /\
  (mode s = "min"%string \/ mode s = "max"%string) /\
  (cooldown_counter s = 0 \/
   (effective_patience s = default_patience s /\
    Z.min 0 (cooldown s) <= cooldown_counter s <= Z.max 0 (cooldown s))).

(** Two calls of [step] that end alike: same result or same
    exception, on objects that agree but for the unread attributes. *)
Definition outcomes_agree (x y : outcome t bool) : Prop :=
  match x, y with
  | Returns r a, Returns r' b => r = r' /\ same_but_unread a b
  | Raises e a, Raises e' b => e = e' /\ same_but_unread a b
  | _, _ => False
  end.

(** What [_reduce_lr] makes of one group whose floor is [min_lr]. *)
Definition reduced_group (factor eps min_lr : Q) (g : param_group) : param_group :=
  let new_lr := Py.max (lr g * factor)%Q min_lr in
  if Qltb eps (lr g - new_lr)%Q then set_lr new_lr g else g.

(** The arguments the specification calls invalid: a factor outside
    the open interval (0,1), a negative patience or cooldown, a list of
    floors whose length is not the number of groups.  This follows the
    specification's words, to be compared with what [__init__] rejects. *)
Definition spec_invalid_arguments (opt : Optimizer) (factor : Q)
    (patience cooldown : Z) (min_lr : min_lr_arg) : Prop :=
  ~ (0 < factor /\ factor < 1)%Q \/ patience < 0 \/ cooldown < 0 \/
  match min_lr with
  | MinLrList l => List.length l <> List.length (param_groups opt)
  | MinLrScalar _ => False
  end.

Definition raised {A} (r : exn + A) : Prop :=
  match r with
  | inl _ => True
  | inr _ => False
  end.

(** *** Objects used as examples *)

Definition one_group (rate : Q) : Optimizer :=
  {| param_groups := [ {| lr := rate; weight_decay := 0 |} ] |}.

(** [AnnealOnPlateau(optimizer, factor=0.5, patience=2, cooldown=1)]
    on one group of rate 1: the scenario of the specification. *)
Definition scenario : exn + t :=
  __init__ (OptimizerObj (one_group 1)) "min" "min" (1 # 2) 2 0 false 1
    (MinLrScalar 0) (1 # 100000000).

(** [AnnealOnPlateau(optimizer, factor=-0.5, patience=-1, cooldown=-1)]. *)
Definition negative_arguments : exn + t :=
  __init__ (OptimizerObj (one_group 1)) "min" "min" (- 1 # 2) (-1) 0 false (-1)
    (MinLrScalar 0) (1 # 100000000).

(** [AnnealOnPlateau(optimizer, factor=0.5, patience=0, min_lr=0.5,
    eps=-1)] on one group of rate 0.1, below its floor. *)
Definition negative_eps : exn + t :=
  __init__ (OptimizerObj (one_group (1 # 10))) "min" "min" (1 # 2) 0 0 false 0
    (MinLrScalar (1 # 2)) (- 1).

(** The rates of the groups after [rounds] on a freshly built object. *)
Definition rates_after (built : exn + t) (rounds : list (pyfloat * option pyfloat))
    : option (list Q) :=
  match built with
  | inl _ => None
  | inr self => Some (map lr (param_groups (optimizer (snd (run self rounds)))))
  end.

(** The recorded outcomes of [rounds] on a freshly built object. *)
Definition results_after (built : exn + t) (rounds : list (pyfloat * option pyfloat))
    : option (list (exn + bool)) :=
  match built with
  | inl _ => None
  | inr self => Some (fst (run self rounds))
  end.

(** The scenario after its first round [step(1.0)], which set [best]. *)
Definition scenario_best_set : t :=
  {| factor := 1 # 2; optimizer := one_group 1; min_lrs := [0%Q];
     default_patience := 2; effective_patience := 2; verbose := false;
     cooldown := 1; cooldown_counter := 0; mode := "min"; aux_mode := "min";
     best := Fin 1; best_aux := None; num_bad_epochs := 0; mode_worse := PInf;
     eps := 1 # 100000000; last_epoch := 1; _last_lr := Some [1%Q] |}.

(** An object in cooldown, two rounds left, with [best] and
    [best_aux] set. *)
Definition in_cooldown_state : t :=
  {| factor := 1 # 2; optimizer := one_group (1 # 2); min_lrs := [0%Q];
     default_patience := 1; effective_patience := 1; verbose := false;
     cooldown := 2; cooldown_counter := 2; mode := "min"; aux_mode := "min";
     best := Fin 1; best_aux := Some (Fin 3); num_bad_epochs := 0;
     mode_worse := PInf; eps := 1 # 100000000; last_epoch := 3;
     _last_lr := Some [1 # 2] |}.

End AnnealOnPlateau.

(** ** [flair/optim.py]: class [ExpAnnealLR] *)

Module ExpAnnealLR.

Local Open Scope R_scope.

(** [end_lr] and [iterations] are set by [__init__]; [last_epoch] and
    [base_lrs] (the rate of each group when the schedule was attached)
    are kept by the base class [_LRScheduler] of torch. *)
Record t : Type := {
  end_lr : R;
  iterations : Z;
  last_epoch : Z;
  base_lrs : list R
}.

(** [x ** y] on floats, for a positive base only: there it is the real
    power.  Other bases (where Python answers 0, 1, a complex number
    or [ZeroDivisionError]) are left out: [None]. *)
Definition pow (x y : R) : option R :=
  if Rlt_dec 0 x then Some (Rpower x y) else None.

(** One element of the list comprehension of [get_lr]; the division by
    [base_lr] raises when the base rate is zero. *)
Definition get_lr_group (self : t) (pct base_lr : R) : option R :=
  if Req_dec_T base_lr 0 then None
  else option_map (Rmult base_lr) (pow (end_lr self / base_lr) pct).

Fixpoint get_lr_list (self : t) (pct : R) (lrs : list R) : option (list R) :=
  match lrs with
  | [] => Some []
  | base_lr :: rest =>
    match get_lr_group self pct base_lr, get_lr_list self pct rest with
    | Some v, Some vs => Some (v :: vs)
    | _, _ => None
    end
  end.

(** [get_lr()]; [None] stands for [ZeroDivisionError] (no iterations,
    or a zero base rate) and for the powers [pow] leaves out. *)
Definition get_lr (self : t) : option (list R) :=
  let iteration := (last_epoch self + 1)%Z in
  if (iterations self =? 0)%Z then None
  else
    let pct := IZR iteration / IZR (iterations self) in
    get_lr_list self pct (base_lrs self).

(** *** Vocabulary of the statements below *)

Definition set_last_epoch (v : Z) (s : t) : t :=
  {| end_lr := end_lr s; iterations := iterations s; last_epoch := v;
     base_lrs := base_lrs s |}.

(** The example of the specification: one group that starts at rate
    1.0, [end_lr=0.01], 100 iterations. *)
Definition example (last : Z) : t :=
  {| end_lr := 1 / 100; iterations := 100; last_epoch := last; base_lrs := [1] |}.

End ExpAnnealLR.

(** ** [flair/optim.py]: class [ReduceLRWDOnPlateau] *)

Module ReduceLRWDOnPlateau.

Local Open Scope Z_scope.

(** The attributes [step] and [_reduce_weight_decay] touch.  The class
    has no [__init__] of its own: they are set by the constructor of
    torch's [ReduceLROnPlateau]. *)
Record t : Type := {
  optimizer : Optimizer;
  factor : Q;
  min_lrs : list Q;
  patience : Z;
  cooldown : Z;
  cooldown_counter : Z;
  best : pyfloat;
  num_bad_epochs : Z;
  eps : Q;
  last_epoch : Z
}.

Definition set_optimizer v (s : t) : t :=
  {| optimizer := v; factor := factor s; min_lrs := min_lrs s; patience := patience s;
     cooldown := cooldown s; cooldown_counter := cooldown_counter s; best := best s;
     num_bad_epochs := num_bad_epochs s; eps := eps s; last_epoch := last_epoch s |}.

Definition set_cooldown_counter v (s : t) : t :=
  {| optimizer := optimizer s; factor := factor s; min_lrs := min_lrs s; patience := patience s;
     cooldown := cooldown s; cooldown_counter := v; best := best s;
     num_bad_epochs := num_bad_epochs s; eps := eps s; last_epoch := last_epoch s |}.

Definition set_best v (s : t) : t :=
  {| optimizer := optimizer s; factor := factor s; min_lrs := min_lrs s; patience := patience s;
     cooldown := cooldown s; cooldown_counter := cooldown_counter s; best := v;
     num_bad_epochs := num_bad_epochs s; eps := eps s; last_epoch := last_epoch s |}.

Definition set_num_bad_epochs v (s : t) : t :=
  {| optimizer := optimizer s; factor := factor s; min_lrs := min_lrs s; patience := patience s;
     cooldown := cooldown s; cooldown_counter := cooldown_counter s; best := best s;
     num_bad_epochs := v; eps := eps s; last_epoch := last_epoch s |}.

Definition set_last_epoch v (s : t) : t :=
  {| optimizer := optimizer s; factor := factor s; min_lrs := min_lrs s; patience := patience s;
     cooldown := cooldown s; cooldown_counter := cooldown_counter s; best := best s;
     num_bad_epochs := num_bad_epochs s; eps := eps s; last_epoch := v |}.

(** The loop of [_reduce_weight_decay] from index [i] on.  A group
    whose weight decay is zero is skipped before [min_lrs[i]] is read. *)
Fixpoint _reduce_weight_decay_loop (factor eps : Q) (min_lrs : list Q) (i : nat)
    (groups : list param_group) : list param_group * option exn :=
  match groups with
  | [] => ([], None)
  | param_group :: rest =>
    if negb (Qeq_bool (weight_decay param_group) 0) then
      match nth_error min_lrs i with
      | None => (param_group :: rest, Some IndexError)
      | Some min_lr =>
        let old_weight_decay := weight_decay param_group in
        let new_weight_decay := Py.max (old_weight_decay * factor)%Q min_lr in
        let param_group :=
          if Qltb eps (old_weight_decay - new_weight_decay)%Q
          then set_weight_decay new_weight_decay param_group
          else param_group in
        let (rest, e) := _reduce_weight_decay_loop factor eps min_lrs (S i) rest in
        (param_group :: rest, e)
      end
    else
      let (rest, e) := _reduce_weight_decay_loop factor eps min_lrs (S i) rest in
      (param_group :: rest, e)
  end.

(** [_reduce_weight_decay(epoch)]; the log line is not modelled. *)
Definition _reduce_weight_decay (self : t) (epoch : Z) : outcome t unit :=
  let (groups, e) :=
    _reduce_weight_decay_loop (factor self) (eps self) (min_lrs self) 0
      (param_groups (optimizer self)) in
  let self := set_optimizer {| param_groups := groups |} self in
  match e with
  | Some e => Raises e self
  | None => Returns tt self
  end.

Section Inherited.

(** What the class inherits from torch's [ReduceLROnPlateau], which
    is not part of this repository: the comparison [is_better] (it
    depends on the mode and threshold the scheduler was built with)
    and the method [_reduce_lr]. *)
Variable is_better : pyfloat -> pyfloat -> bool.
Variable _reduce_lr : t -> Z -> outcome t unit.

(** Modelled from the spec: the inherited property [in_cooldown],
    "currently in cooldown ([cooldown_remaining > 0])". *)
Definition in_cooldown (self : t) : bool := cooldown_counter self >? 0.

(** [step(metrics, epoch=None)].  The method has no [return]
    statement: a call that does not raise hands back [None]. *)
Definition step (self : t) (metrics : pyfloat) (epoch : option Z) : outcome t pyret :=
  let current := metrics in
  let (epoch, self) :=
    match epoch with
    | None => (last_epoch self + 1, set_last_epoch (last_epoch self + 1) self)
    | Some epoch => (epoch, self)
    end in
  let self := set_last_epoch epoch self in
  let self :=
    if is_better current (best self) then
      let self := set_best current self in
      set_num_bad_epochs 0 self
    else set_num_bad_epochs (num_bad_epochs self + 1) self in
  let self :=
    if in_cooldown self then
      let self := set_cooldown_counter (cooldown_counter self - 1) self in
      set_num_bad_epochs 0 self
    else self in
  if num_bad_epochs self >? patience self then
    match _reduce_lr self epoch with
    | Raises e self => Raises e self
    | Returns _ self =>
      match _reduce_weight_decay self epoch with
      | Raises e self => Raises e self
      | Returns _ self =>
        let self := set_cooldown_counter (cooldown self) self in
        let self := set_num_bad_epochs 0 self in
        Returns PyNone self
      end
    end
  else Returns PyNone self.

End Inherited.

(** *** Vocabulary of the statements below *)

Definition attached (self : t) : Prop :=
  (List.length (param_groups (optimizer self)) <= List.length (min_lrs self))%nat.

(** What [_reduce_weight_decay] makes of one group whose floor is
    [min_lr]. *)
Definition reduced_weight_decay (factor eps min_lr : Q) (g : param_group)
    : param_group :=
  if negb (Qeq_bool (weight_decay g) 0) then
    let new_weight_decay := Py.max (weight_decay g * factor)%Q min_lr in
    if Qltb eps (weight_decay g - new_weight_decay)%Q
    then set_weight_decay new_weight_decay g
    else g
  else g.

(** *** An instance of the inherited part, to run examples *)

(** The comparison of mode ["min"] with a threshold of 0. *)
Definition example_is_better (a best : pyfloat) : bool := flt a best.

(** A [_reduce_lr] that lowers the rates the way
    [AnnealOnPlateau._reduce_lr] does. *)
Definition example_reduce_lr (self : t) (epoch : Z) : outcome t unit :=
  let (groups, e) :=
    AnnealOnPlateau._reduce_lr_loop (factor self) (eps self) (min_lrs self) 0
      (param_groups (optimizer self)) in
  let self := set_optimizer {| param_groups := groups |} self in
  match e with
  | Some e => Raises e self
  | None => Returns tt self
  end.

(** One group of rate 1.0 and weight decay 0.1, [factor=0.5],
    [patience=0], after a first round that set [best] to 1.0. *)
Definition example_state : t :=
  {| optimizer := {| param_groups := [ {| lr := 1; weight_decay := 1 # 10 |} ] |};
     factor := 1 # 2; min_lrs := [0%Q]; patience := 0; cooldown := 0;
     cooldown_counter := 0; best := Fin 1; num_bad_epochs := 0;
     eps := 1 # 100000000; last_epoch := 1 |}.

End ReduceLRWDOnPlateau.

(** ** Vocabulary for runs of [AnnealOnPlateau.step] *)

Module AnnealOnPlateauRuns.

Import AnnealOnPlateau.
Local Open Scope Z_scope.

(** [a] is strictly better than [b] under [mode]: the primary
    comparison of [step]. *)
Definition better (mode : string) (a b : pyfloat) : bool :=
  ((mode =? "min")%string && flt a b) || ((mode =? "max")%string && flt b a).

(** Every metric is strictly better than the one before it, the first
    one than [best]. *)
Fixpoint strictly_improving (mode : string) (best : pyfloat)
    (rounds : list (pyfloat * option pyfloat)) : Prop :=
  match rounds with
  | [] => True
  | (m, _) :: rest => better mode m best = true /\ strictly_improving mode m rest
  end.

(** [a] is no worse than [b] under [mode]: the same value, an equal
    number, or a strictly better one. *)
Definition not_worse (mode : string) (a b : pyfloat) : Prop :=
  a = b \/ feq a b = true \/ better mode a b = true.

(** The counters are within their bounds. *)
Definition counters_bounded (s : t) : Prop :=
  0 <= default_patience s /\
  0 <= num_bad_epochs s <= effective_patience s /\
  0 <= cooldown_counter s <= cooldown s.

(** A call that returned. *)
Definition returned (r : exn + bool) : Prop :=
  match r with
  | inr _ => True
  | inl _ => False
  end.

(** Two groups of rates 1.0 and 0.25, floors 0.3 and 0.3,
    [factor=0.5], [patience=0], after a round that set [best] to 1.0. *)
Definition two_groups : t :=
  {| factor := 1 # 2;
     optimizer := {| param_groups := [ {| lr := 1; weight_decay := 0 |};
                                       {| lr := 1 # 4; weight_decay := 0 |} ] |};
     min_lrs := [3 # 10; 3 # 10]%Q;
     default_patience := 0; effective_patience := 0; verbose := false;
     cooldown := 0; cooldown_counter := 0; mode := "min"; aux_mode := "min";
     best := Fin 1; best_aux := None; num_bad_epochs := 0; mode_worse := PInf;
     eps := 1 # 100000000; last_epoch := 1; _last_lr := Some [1; 1 # 4]%Q |}.

(** [AnnealOnPlateau(optimizer, factor=0.5, patience=0, min_lr=0.3)] on
    the optimizer of [two_groups]. *)
Definition built_two_groups : exn + t :=
  __init__ (OptimizerObj (optimizer two_groups)) "min" "min" (1 # 2) 0 0 false 0
    (MinLrScalar (3 # 10)) 0.

(** The auxiliary metric does not win a tie on this round: it is
    absent or zero, or the primary metric is not equal to [best], or
    [best_aux] is a number that the auxiliary metric does not strictly
    beat under [aux_mode], or [aux_mode] is neither of the two modes the
    tie-break knows. *)
Definition tie_not_won (s : t) (m : pyfloat) (a : option pyfloat) : Prop :=
  match a with
  | None => True
  | Some x =>
    truthy x = false \/ feq m (best s) = false \/
    (exists ba, best_aux s = Some ba /\ ~ aux_better (aux_mode s) x ba) \/
    (aux_mode s <> "min"%string /\ aux_mode s <> "max"%string)
  end.

(** A round that is no improvement, said of its two metrics: the
    primary one is not strictly better than [best], and the auxiliary
    one does not win a tie. *)
Definition bad_round (s : t) (round : pyfloat * option pyfloat) : Prop :=
  better (mode s) (fst round) (best s) = false /\
  tie_not_won s (fst round) (snd round).

(** [best] is 1.0 and [best_aux] is 3.0, [patience=2], [cooldown=0],
    no bad round counted yet. *)
Definition tie_state : t :=
  {| factor := 1 # 2; optimizer := one_group 1; min_lrs := [0%Q];
     default_patience := 2; effective_patience := 2; verbose := false;
     cooldown := 0; cooldown_counter := 0; mode := "min"; aux_mode := "min";
     best := Fin 1; best_aux := Some (Fin 3); num_bad_epochs := 0;
     mode_worse := PInf; eps := 1 # 100000000; last_epoch := 1;
     _last_lr := Some [1%Q] |}.

(** The same with one bad round already counted. *)
Definition one_bad_round_counted : t :=
  {| factor := 1 # 2; optimizer := one_group 1; min_lrs := [0%Q];
     default_patience := 2; effective_patience := 2; verbose := false;
     cooldown := 0; cooldown_counter := 0; mode := "min"; aux_mode := "min";
     best := Fin 1; best_aux := Some (Fin 3); num_bad_epochs := 1;
     mode_worse := PInf; eps := 1 # 100000000; last_epoch := 2;
     _last_lr := Some [1%Q] |}.

(** [AnnealOnPlateau(optimizer, factor=0.5, patience=-1, cooldown=2)]
    on one group of rate 1. *)
Definition negative_patience : exn + t :=
  __init__ (OptimizerObj (one_group 1)) "min" "min" (1 # 2) (-1) 0 false 2
    (MinLrScalar 0) (1 # 100000000).

(** The cooldown counter after [rounds] on a freshly built object. *)
Definition cooldown_counter_after (built : exn + t)
    (rounds : list (pyfloat * option pyfloat)) : option Z :=
  match built with
  | inl _ => None
  | inr self => Some (cooldown_counter (snd (run self rounds)))
  end.

End AnnealOnPlateauRuns.

(** ** Vocabulary for [ReduceLRWDOnPlateau._reduce_weight_decay] *)

Module ReduceLRWDOnPlateauExamples.

Import ReduceLRWDOnPlateau.

(** Three groups: weight decay 0.1 above its floor, weight decay 0 with
    a positive floor, weight decay 0.4 with a floor missing from
    [min_lrs]. *)
Definition three_groups : t :=
  {| optimizer :=
       {| param_groups := [ {| lr := 1; weight_decay := 1 # 10 |};
                            {| lr := 1; weight_decay := 0 |};
                            {| lr := 1; weight_decay := 4 # 10 |} ] |};
     factor := 1 # 2; min_lrs := [1 # 100; 1 # 100]%Q; patience := 0; cooldown := 0;
     cooldown_counter := 0; best := Fin 1; num_bad_epochs := 1;
     eps := 1 # 100000000; last_epoch := 1 |}.

End ReduceLRWDOnPlateauExamples.

(** ** [flair/optim.py]: class [LinearSchedulerWithWarmup] *)

Module LinearSchedulerWithWarmup.

Local Open Scope Q_scope.

(** The builtin [max(a, b)] on integers. *)
Definition int_max (a b : Z) : Z := if (a <? b)%Z then b else a.

(** The closure [linear_lr_lambda] that [__init__] hands to torch's
    [LambdaLR], with the two values it captures as arguments.  Both
    branches are computed before the test; their divisors are at least
    1, so neither can raise. *)
Definition linear_lr_lambda (num_train_steps num_warmup_steps : Z) (current_step : Z) : Q :=
  let lambda_during_warmup :=
    inject_Z current_step / inject_Z (int_max 1 num_warmup_steps) in
  let lambda_after_warmup :=
    Py.max 0
      (inject_Z (num_train_steps - current_step)
       / inject_Z (int_max 1 (num_train_steps - num_warmup_steps))) in
  if (current_step <? num_warmup_steps)%Z then lambda_during_warmup
  else lambda_after_warmup.

End LinearSchedulerWithWarmup.

(** ** [flair/training_utils.py]: [convert_labels_to_one_hot] *)

Module Labels.

Local Open Scope Z_scope.

(** [label in labels] on a list of strings. *)
Definition contains (labels : list string) (label : string) : bool :=
  existsb (fun other => (label =? other)%string) labels.

(** [convert_labels_to_one_hot(label_list, label_dict)].  The
    dictionary is only asked for [label_dict.get_items()], its items in
    order; that list stands for it here. *)
Definition convert_labels_to_one_hot (label_list : list (list string))
    (get_items : list string) : list (list Z) :=
  map (fun labels =>
         map (fun label => if contains labels label then 1 else 0) get_items)
    label_list.

End Labels.

(** ** [flair/training_utils.py]: [identify_dynamic_embeddings] *)

Module DynamicEmbeddings.

Section DataPoints.

(** The data points come from [flair.data], which is not part of these
    files.  The function only ever asks them five things, which stand
    for them here: whether a data point is a [Sentence], its first
    token [data_point[0]] (which may raise), and the items
    [(name, vector.requires_grad)] of the [_embeddings] dictionary of a
    token and of a data point, in the dictionary's order. *)
Variable DT : Type.
Variable Token : Type.
Variable is_Sentence : DT -> bool.
Variable first_token : DT -> exn + Token.
Variable token_embeddings : Token -> list (string * bool).
Variable embeddings : DT -> list (string * bool).

(** [list(set(names))]: the names without repetition, in an order that
    Python does not fix. *)
Variable list_of_set : list string -> list string.

(** One of the two inner loops: every name goes to [all_embeddings],
    those whose vector requires a gradient also to
    [dynamic_embeddings]. *)
Fixpoint collect (items : list (string * bool))
    (dynamic_embeddings all_embeddings : list string) : list string * list string :=
  match items with
  | [] => (dynamic_embeddings, all_embeddings)
  | (name, requires_grad) :: rest =>
    let dynamic_embeddings :=
      if requires_grad then dynamic_embeddings ++ [name] else dynamic_embeddings in
    collect rest dynamic_embeddings (all_embeddings ++ [name])
  end.

(** The outer loop from some data point on, and the two [return]
    statements after it. *)
Fixpoint identify_loop (data_points : list DT)
    (dynamic_embeddings all_embeddings : list string) : exn + option (list string) :=
  match data_points with
  | [] =>
    match all_embeddings with
    | [] => inr None
    | _ :: _ => inr (Some (list_of_set dynamic_embeddings))
    end
  | data_point :: rest =>
    lists <-
      (if is_Sentence data_point then
         first_token <- first_token data_point ;;
         inr (collect (token_embeddings first_token) dynamic_embeddings all_embeddings)
       else inr (dynamic_embeddings, all_embeddings)) ;;
    let (dynamic_embeddings, all_embeddings) :=
      collect (embeddings data_point) (fst lists) (snd lists) in
    match dynamic_embeddings with
    | _ :: _ => inr (Some dynamic_embeddings)
    | [] => identify_loop rest dynamic_embeddings all_embeddings
    end
  end.

(** [identify_dynamic_embeddings(data_points)]. *)
Definition identify_dynamic_embeddings (data_points : list DT)
    : exn + option (list string) :=
  identify_loop data_points [] [].

(** The names of the items whose vector requires a gradient. *)
Definition dynamic_names (items : list (string * bool)) : list string :=
  map fst (filter snd items).

(** The dynamic names [identify_dynamic_embeddings] sees on one data
    point: those of its first token when it is a sentence, then its
    own. *)
Definition dynamic_names_of (data_point : DT) : exn + list string :=
  if is_Sentence data_point then
    first_token <- first_token data_point ;;
    inr (dynamic_names (token_embeddings first_token)
         ++ dynamic_names (embeddings data_point))
  else inr (dynamic_names (embeddings data_point)).

(** A data point that carries no embedding at all (and whose first
    token, for a sentence, exists and carries none). *)
Definition no_embeddings (data_point : DT) : Prop :=
  embeddings data_point = [] /\
  (is_Sentence data_point = true ->
   exists token, first_token data_point = inr token /\ token_embeddings token = []).

End DataPoints.

(** *** An instance, to run examples *)

(** A data point given by its kind, its tokens' embeddings and its own
    embeddings. *)
Record example_point : Type := {
  sentence : bool;
  tokens : list (list (string * bool));
  own : list (string * bool)
}.

Definition example_first_token (p : example_point) : exn + list (string * bool) :=
  match tokens p with
  | [] => inl IndexError
  | token :: _ => inr token
  end.

(** A document with one static embedding. *)
Definition static_point : example_point :=
  {| sentence := false; tokens := []; own := [("glove"%string, false)] |}.

(** A sentence whose first token has a static and a dynamic embedding,
    with a dynamic embedding of its own. *)
Definition dynamic_sentence : example_point :=
  {| sentence := true;
     tokens := [[("glove"%string, false); ("bert"%string, true)]];
     own := [("doc"%string, true)] |}.

(** A sentence without tokens: reading its first token raises. *)
Definition empty_sentence : example_point :=
  {| sentence := true; tokens := []; own := [] |}.

Definition example_identify : list example_point -> exn + option (list string) :=
  identify_dynamic_embeddings example_point (list (string * bool))
    sentence example_first_token (fun token => token) own (nodup string_dec).

End DynamicEmbeddings.

(** ** [flair/training_utils.py]: class [Result] *)

Module Result.

(** What the constructor and the property [loss] can raise. *)
Inductive error : Type :=
| AssertionError
| KeyError.

Section Values.

(** The values kept in the dictionaries ([scores] maps names to
    numbers, [classification_report] to nested reports). *)
Variable value : Type.
Variable report : Type.

(** A dictionary with string keys, as the list of its items; a key has
    at most one item, the first one found. *)
Definition dict : Type := list (string * value).

(** [key in d]. *)
Definition has_key (d : dict) (key : string) : bool :=
  existsb (fun item => (fst item =? key)%string) d.

(** [d[key]]. *)
Fixpoint getitem (d : dict) (key : string) : error + value :=
  match d with
  | [] => inl KeyError
  | (k, v) :: rest => if (k =? key)%string then inr v else getitem rest key
  end.

Record t : Type := {
  main_score : Q;
  scores : dict;
  detailed_results : string;
  classification_report : report
}.

(** [__init__(main_score, detailed_results, classification_report,
    scores)]. *)
Definition __init__ (main_score : Q) (detailed_results : string)
    (classification_report : report) (scores : dict) : error + t :=
  if negb (has_key scores "loss") then inl AssertionError
  else
    inr {| main_score := main_score; scores := scores;
           detailed_results := detailed_results;
           classification_report := classification_report |}.

(** The property [loss]. *)
Definition loss (self : t) : error + value := getitem (scores self) "loss".

End Values.

End Result.

(** ** [flair/optim.py]: class [SGDW] *)

Module SGDW.

(** The argument [lr]: the marker [required] of torch, or a number. *)
Inductive lr_arg : Type :=
| required
| given (lr : Q).

(** The dictionary [defaults] that [__init__] hands to the constructor
    of torch's [Optimizer]. *)
Record defaults : Type := {
  default_lr : lr_arg;
  default_momentum : Q;
  default_dampening : Q;
  default_weight_decay : Q;
  default_nesterov : bool
}.

Section Base.

(** The constructor of the base class, [super().__init__(params,
    defaults)], which is torch's. *)
Variable params_arg : Type.
Variable optimizer : Type.
Variable Optimizer__init__ : params_arg -> defaults -> exn + optimizer.

(** [__init__(params, lr, momentum, dampening, weight_decay,
    nesterov)]. *)
Definition __init__ (params : params_arg) (lr : lr_arg)
    (momentum dampening weight_decay : Q) (nesterov : bool) : exn + optimizer :=
  if match lr with
     | required => false
     | given lr => Qltb lr 0
     end
  then inl ValueError
  else if Qltb momentum 0 then inl ValueError
  else if Qltb weight_decay 0 then inl ValueError
  else
    let defaults :=
      {| default_lr := lr; default_momentum := momentum;
         default_dampening := dampening; default_weight_decay := weight_decay;
         default_nesterov := nesterov |} in
    if nesterov && (Qle_bool momentum 0 || negb (Qeq_bool dampening 0))
    then inl ValueError
    else Optimizer__init__ params defaults.

End Base.

Section Tensors.

(** Tensors and the operations [step] calls on them are torch's:
    [torch.zeros_like(x)], [x.mul_(a)], [x.add_(y)], and the two-argument
    [x.add_(a, y)] and [x.add(a, y)], which add [a] times [y]. *)
Variable tensor : Type.
Variable zeros_like : tensor -> tensor.
Variable mul_ : tensor -> Q -> tensor.
Variable add_ : tensor -> tensor -> tensor.
Variable add_scaled : tensor -> Q -> tensor -> tensor.

(** A parameter [p]: [p.data], [p.grad] ([None] when it has no
    gradient) and the entry [momentum_buffer] of [self.state[p]]
    ([None] when the key is absent), the only key [step] uses. *)
Record parameter : Type := {
  data : tensor;
  grad : option tensor;
  momentum_buffer : option tensor
}.

Record group : Type := {
  params : list parameter;
  lr : Q;
  momentum : Q;
  dampening : Q;
  weight_decay : Q;
  nesterov : bool
}.

(** The body of the inner loop for one parameter of a group. *)
Definition step_parameter (g : group) (p : parameter) : parameter :=
  match grad p with
  | None => p
  | Some d_p =>
    let (d_p, buffer) :=
      if negb (Qeq_bool (momentum g) 0) then
        match momentum_buffer p with
        | None =>
          let buf := add_ (mul_ (zeros_like (data p)) (momentum g)) d_p in
          (if nesterov g then add_scaled d_p (momentum g) buf else buf, Some buf)
        | Some buf =>
          let buf := add_scaled (mul_ buf (momentum g)) (1 - dampening g)%Q d_p in
          (if nesterov g then add_scaled d_p (momentum g) buf else buf, Some buf)
        end
      else (d_p, momentum_buffer p) in
    let new_data :=
      if negb (Qeq_bool (weight_decay g) 0)
      then add_scaled (data p) (- weight_decay g)%Q (data p)
      else data p in
    let new_data := add_scaled new_data (- lr g)%Q d_p in
    {| data := new_data; grad := grad p; momentum_buffer := buffer |}
  end.

Definition step_group (g : group) : group :=
  {| params := map (step_parameter g) (params g); lr := lr g;
     momentum := momentum g; dampening := dampening g;
     weight_decay := weight_decay g; nesterov := nesterov g |}.

(** [step(closure=None)] on the parameter groups.  A closure
    re-evaluates the model: it hands back a loss and may have changed
    the parameters' gradients before the update runs. *)
Definition step {loss_t : Type} (param_groups : list group)
    (closure : option (list group -> loss_t * list group))
    : option loss_t * list group :=
  let (loss, param_groups) :=
    match closure with
    | Some closure => let (loss, param_groups) := closure param_groups in
                      (Some loss, param_groups)
    | None => (None, param_groups)
    end in
  (loss, map step_group param_groups).

End Tensors.

(** *** Parameters that are single numbers *)

(** A scalar parameter: the tensor operations are those of the
    rationals.  What holds of it holds of each coordinate of a tensor
    parameter, the operations being elementwise. *)
Definition scalar_step_parameter : group Q -> parameter Q -> parameter Q :=
  step_parameter Q (fun _ => 0%Q) Qmult Qplus (fun x a y => (x + a * y)%Q).

End SGDW.

(** * Properties *)

(** ** Comparisons *)

Module PyFacts.

Lemma Qltb_lt (a b : Q) : Qltb a b = true <-> (a < b)%Q.
Proof.
  unfold Qltb. rewrite negb_true_iff. split.
  - intros H. apply Qnot_le_lt. intros Hle.
    apply Qle_bool_iff in Hle. congruence.
  - intros H. destruct (Qle_bool b a) eqn:E; [|reflexivity].
    apply Qle_bool_iff in E. exfalso. apply (Qlt_not_le _ _ H E).
Qed.

Lemma Qltb_ge (a b : Q) : Qltb a b = false <-> (b <= a)%Q.
Proof.
  unfold Qltb. rewrite negb_false_iff. apply Qle_bool_iff.
Qed.

Lemma max_ge_l (a b : Q) : (a <= Py.max a b)%Q.
Proof.
  unfold Py.max. destruct (Qltb a b) eqn:E.
  - apply Qltb_lt in E. apply Qlt_le_weak. exact E.
  - apply Qle_refl.
Qed.

Lemma max_ge_r (a b : Q) : (b <= Py.max a b)%Q.
Proof.
  unfold Py.max. destruct (Qltb a b) eqn:E.
  - apply Qle_refl.
  - apply Qltb_ge in E. exact E.
Qed.

End PyFacts.

Module AnnealOnPlateauFacts.

Import AnnealOnPlateau AnnealOnPlateauRuns PyFacts.
Local Open Scope Z_scope.

(** *** The loop of [_reduce_lr] *)

Lemma _reduce_lr_loop_length factor eps mins groups :
  forall i, List.length (fst (_reduce_lr_loop factor eps mins i groups)) = List.length groups.
Proof.
  induction groups as [|g rest IH]; intros i; simpl; [reflexivity|].
  destruct (nth_error mins i) as [m|]; [|reflexivity].
  specialize (IH (S i)).
  destruct (_reduce_lr_loop factor eps mins (S i) rest) as [rest' e]. simpl in *.
  now rewrite IH.
Qed.

(** Whatever happens, a group is either left as it was or rewritten
    by the guarded assignment. *)
Lemma _reduce_lr_loop_nth factor eps mins groups :
  forall i k g g',
    nth_error groups k = Some g ->
    nth_error (fst (_reduce_lr_loop factor eps mins i groups)) k = Some g' ->
    g' = g \/
    exists min_lr,
      nth_error mins (i + k) = Some min_lr /\
      Qltb eps (lr g - Py.max (lr g * factor) min_lr)%Q = true /\
      g' = set_lr (Py.max (lr g * factor) min_lr) g.
Proof.
  induction groups as [|g0 rest IH]; intros i k g g' Hk Hk'.
  - destruct k; discriminate.
  - simpl in Hk'. destruct (nth_error mins i) as [m|] eqn:Em.
    + specialize (IH (S i)).
      destruct (_reduce_lr_loop factor eps mins (S i) rest) as [rest' e]. simpl in *.
      destruct k as [|k]; simpl in *.
      * injection Hk as <-. injection Hk' as <-.
        destruct (Qltb eps (lr g0 - Py.max (lr g0 * factor) m)%Q) eqn:E.
        -- right. exists m. rewrite Nat.add_0_r. auto.
        -- left. reflexivity.
      * replace (i + S k)%nat with (S i + k)%nat by lia. eapply IH; eauto.
    + simpl in Hk'. left. congruence.
Qed.

(** With a floor for every group the loop does not raise, and each
    group becomes its [reduced_group]. *)
Lemma _reduce_lr_loop_attached factor eps mins groups :
  forall i,
    (i + List.length groups <= List.length mins)%nat ->
    snd (_reduce_lr_loop factor eps mins i groups) = None /\
    forall k g,
      nth_error groups k = Some g ->
      exists min_lr,
        nth_error mins (i + k) = Some min_lr /\
        nth_error (fst (_reduce_lr_loop factor eps mins i groups)) k
        = Some (reduced_group factor eps min_lr g).
Proof.
  induction groups as [|g0 rest IH]; intros i Hlen; simpl in *.
  - split; [reflexivity|]. intros [|k] g H; discriminate.
  - destruct (nth_error mins i) as [m|] eqn:Em.
    2:{ apply nth_error_None in Em. lia. }
    destruct (IH (S i)) as [He Hn]; [lia|].
    destruct (_reduce_lr_loop factor eps mins (S i) rest) as [rest' e]. simpl in *.
    split; [exact He|].
    intros [|k] g Hg; simpl in *.
    + injection Hg as <-. exists m. rewrite Nat.add_0_r. split; [exact Em|reflexivity].
    + destruct (Hn k g Hg) as [mn [H1 H2]]. exists mn.
      replace (i + S k)%nat with (S (i + k)) by lia. auto.
Qed.

(** *** One call of [step] *)

Lemma step_is_better_last_epoch s e m a :
  step_is_better (set_last_epoch e s) m a = step_is_better s m a.
Proof. reflexivity. Qed.

Lemma step_is_better_frame a b m x :
  frame a b -> step_is_better b m x = step_is_better a m x.
Proof.
  intros (_ & _ & _ & _ & _ & _ & _ & Hm & Ha & Hb & Hba & _).
  unfold step_is_better. now rewrite Hm, Ha, Hb, Hba.
Qed.

Lemma frame_refl s : frame s s.
Proof. repeat split. Qed.

Lemma frame_trans a b c : frame a b -> frame b c -> frame a c.
Proof.
  unfold frame. intros H1 H2.
  decompose [and] H1. decompose [and] H2. repeat split; congruence.
Qed.

Ltac gtb_cases :=
  repeat match goal with
  | |- context [(?a >? ?b)] =>
    first
      [ replace (a >? b) with true
          by (symmetry; rewrite Z.gtb_ltb; apply Z.ltb_lt; simpl; lia)
      | replace (a >? b) with false
          by (symmetry; rewrite Z.gtb_ltb; apply Z.ltb_ge; simpl; lia) ];
    simpl
  end.

(** The tie-break raised: nothing but [last_epoch] was assigned. *)
Lemma step_raises s m a e :
  step_is_better s m a = inl e ->
  step s m a = Raises e (set_last_epoch (last_epoch s + 1) s).
Proof.
  intros H. unfold step. rewrite step_is_better_last_epoch, H. reflexivity.
Qed.

(** A bad round outside cooldown that stays within the patience. *)
Lemma step_bad s m a :
  step_is_better s m a = inr false ->
  cooldown_counter s <= 0 ->
  num_bad_epochs s + 1 <= effective_patience s ->
  exists s',
    step s m a = Returns false s' /\ frame s s' /\
    num_bad_epochs s' = num_bad_epochs s + 1.
Proof.
  intros H Hc Hp. unfold step. rewrite step_is_better_last_epoch, H.
  unfold in_cooldown. simpl. gtb_cases. simpl. gtb_cases.
  eexists. split; [reflexivity|]. split; [repeat split|reflexivity].
Qed.

(** A bad round outside cooldown that exceeds the patience. *)
Lemma step_fires s m a :
  step_is_better s m a = inr false ->
  cooldown_counter s <= 0 ->
  effective_patience s < num_bad_epochs s + 1 ->
  attached s ->
  exists s',
    step s m a = Returns true s' /\
    cooldown_counter s' = cooldown s /\ num_bad_epochs s' = 0 /\
    effective_patience s' = default_patience s /\
    List.length (param_groups (optimizer s')) = List.length (param_groups (optimizer s)) /\
    forall k g,
      nth_error (param_groups (optimizer s)) k = Some g ->
      exists min_lr,
        nth_error (min_lrs s) k = Some min_lr /\
        nth_error (param_groups (optimizer s')) k
        = Some (reduced_group (factor s) (eps s) min_lr g).
Proof.
  intros H Hc Hp Hatt. unfold step. rewrite step_is_better_last_epoch, H.
  unfold in_cooldown. simpl. gtb_cases. simpl. gtb_cases.
  unfold _reduce_lr. simpl.
  pose proof (_reduce_lr_loop_attached (factor s) (eps s) (min_lrs s)
                (param_groups (optimizer s)) 0 Hatt) as [He Hn].
  pose proof (_reduce_lr_loop_length (factor s) (eps s) (min_lrs s)
                (param_groups (optimizer s)) 0) as Hl.
  destruct (_reduce_lr_loop (factor s) (eps s) (min_lrs s) 0
              (param_groups (optimizer s))) as [groups e].
  simpl in *. subst e. simpl.
  eexists. split; [reflexivity|]. simpl. repeat split; auto.
Qed.

(** A call made in cooldown, with a patience that is not negative. *)
Lemma step_in_cooldown s m a :
  0 < cooldown_counter s ->
  0 <= effective_patience s ->
  match step s m a with
  | Returns r s' =>
    r = false /\ cooldown_counter s' = cooldown_counter s - 1 /\
    num_bad_epochs s' = 0 /\ effective_patience s' = effective_patience s /\
    default_patience s' = default_patience s /\ cooldown s' = cooldown s /\
    optimizer s' = optimizer s
  | Raises e s' => e = TypeError /\ step_is_better s m a = inl TypeError
  end.
Proof.
  intros Hc Hp. unfold step. rewrite step_is_better_last_epoch.
  destruct (step_is_better s m a) as [e|b] eqn:E.
  - assert (e = TypeError) as ->; [|split; reflexivity].
    unfold step_is_better in E.
    destruct a as [x|]; [|discriminate].
    destruct (feq m (best s) && truthy x); [|discriminate].
    unfold lt_opt, gt_opt in E.
    destruct (best_aux s); simpl in E.
    + destruct (aux_mode s =? "min")%string, (aux_mode s =? "max")%string; discriminate.
    + destruct (aux_mode s =? "min")%string, (aux_mode s =? "max")%string;
        simpl in E; congruence.
  - unfold in_cooldown.
    destruct b; simpl; destruct (truthy_opt a); simpl; gtb_cases; simpl; gtb_cases;
      repeat split.
Qed.

(** *** Runs of bad rounds *)

Lemma run_cons s m a rest :
  run s ((m, a) :: rest) =
  match step s m a with
  | Returns r self => let (rs, self) := run self rest in (inr r :: rs, self)
  | Raises e self => let (rs, self) := run self rest in (inl e :: rs, self)
  end.
Proof. reflexivity. Qed.

Lemma reduced_group_lr factor eps min_lr g :
  let new_lr := Py.max (lr g * factor)%Q min_lr in
  ((eps < lr g - new_lr)%Q -> lr (reduced_group factor eps min_lr g) = new_lr) /\
  ((lr g - new_lr <= eps)%Q -> lr (reduced_group factor eps min_lr g) = lr g) /\
  weight_decay (reduced_group factor eps min_lr g) = weight_decay g.
Proof.
  unfold reduced_group. simpl.
  destruct (Qltb eps (lr g - Py.max (lr g * factor) min_lr)%Q) eqn:E; simpl.
  - apply Qltb_lt in E. repeat split; auto.
    intros H. exfalso. apply (Qlt_not_le _ _ E H).
  - apply Qltb_ge in E. repeat split; auto.
    intros H. exfalso. apply (Qlt_not_le _ _ H E).
Qed.

(** Bad rounds outside cooldown, the last of which is the first to
    exceed the patience: every call answers [False] but the last. *)
Lemma run_until_reduction rounds :
  forall s,
    cooldown_counter s <= 0 ->
    attached s ->
    (forall m a, In (m, a) rounds -> step_is_better s m a = inr false) ->
    num_bad_epochs s + Z.of_nat (List.length rounds) = effective_patience s + 1 ->
    (0 < List.length rounds)%nat ->
    exists s',
      run s rounds = (repeat (inr false) (List.length rounds - 1) ++ [inr true], s') /\
      List.length (param_groups (optimizer s')) = List.length (param_groups (optimizer s)) /\
      forall k g,
        nth_error (param_groups (optimizer s)) k = Some g ->
        exists min_lr,
          nth_error (min_lrs s) k = Some min_lr /\
          nth_error (param_groups (optimizer s')) k
          = Some (reduced_group (factor s) (eps s) min_lr g).
Proof.
  induction rounds as [|[m a] rest IH]; intros s Hc Hatt Hbad Hn Hpos.
  - simpl in Hpos. lia.
  - destruct rest as [|r2 rest].
    + simpl in Hn.
      destruct (step_fires s m a) as (s' & Hs & _ & _ & _ & Hl & Hg); auto.
      * apply Hbad. left. reflexivity.
      * lia.
      * exists s'. simpl. rewrite Hs. auto.
    + destruct (step_bad s m a) as (s1 & Hs & Hf & Hnb).
      * apply Hbad. left. reflexivity.
      * exact Hc.
      * simpl List.length in Hn. lia.
      * pose proof Hf as (Hfa & Ho & Hml & _ & Hep & _ & Hcc & _ & _ & _ & _ & Hes).
        destruct (IH s1) as (s' & Hr & Hl & Hg).
        -- lia.
        -- unfold attached in *. now rewrite Ho, Hml.
        -- intros m' a' Hin. rewrite (step_is_better_frame s s1 m' a' Hf).
           apply Hbad. right. exact Hin.
        -- simpl List.length in *. lia.
        -- simpl. lia.
        -- exists s'. split.
           ++ rewrite run_cons, Hs, Hr.
              replace (List.length ((m, a) :: r2 :: rest) - 1)%nat
                with (S (List.length (r2 :: rest) - 1)) by (simpl; lia).
              reflexivity.
           ++ rewrite Ho, Hml, Hfa, Hes in *. auto.
Qed.

(** *** What [__init__] builds *)

Lemma __init___inr o md am f p x v c ml e c0 :
  __init__ o md am f p x v c ml e = inr c0 ->
  exists opt,
    o = OptimizerObj opt /\
    Qle_bool 1 f = false /\
    (md = "min"%string \/ md = "max"%string) /\
    List.length (min_lrs c0) = List.length (param_groups opt) /\
    match ml with
    | MinLrList l => min_lrs c0 = l
    | MinLrScalar q => min_lrs c0 = repeat q (List.length (param_groups opt))
    end /\
    c0 =
    {| factor := f; optimizer := opt; min_lrs := min_lrs c0; default_patience := p;
       effective_patience := p + x; verbose := v; cooldown := c; cooldown_counter := 0;
       mode := md; aux_mode := am;
       best := if (md =? "min")%string then PInf else NInf;
       best_aux := None; num_bad_epochs := 0;
       mode_worse := if (md =? "min")%string then PInf else NInf;
       eps := e; last_epoch := 0; _last_lr := None |}.
Proof.
  unfold __init__. intros H.
  destruct (Qle_bool 1 f) eqn:Ef; [discriminate|].
  destruct o as [opt|]; [|discriminate].
  exists opt. split; [reflexivity|]. split; [reflexivity|].
  assert (Hmins : exists l, (match ml with
                          | MinLrList l =>
                            if negb (Nat.eqb (List.length l) (List.length (param_groups opt)))
                            then inl ValueError else inr l
                          | MinLrScalar q => inr (repeat q (List.length (param_groups opt)))
                          end) = inr l /\
                         List.length l = List.length (param_groups opt) /\
                         match ml with
                         | MinLrList l' => l = l'
                         | MinLrScalar q => l = repeat q (List.length (param_groups opt))
                         end).
  { destruct ml as [q|l].
    - eexists. split; [reflexivity|]. split; [apply repeat_length|reflexivity].
    - destruct (Nat.eqb (List.length l) (List.length (param_groups opt))) eqn:El.
      + exists l. apply Nat.eqb_eq in El. auto.
      + simpl in H. discriminate. }
  destruct Hmins as (l & Hl & Hlen & Hml). rewrite Hl in H. simpl in H.
  unfold _init_is_better in H.
  destruct (md =? "min")%string eqn:E1; simpl in H.
  - injection H as <-. simpl. apply String.eqb_eq in E1. subst md.
    repeat split; auto.
  - destruct (md =? "max")%string eqn:E2; simpl in H; [|discriminate].
    injection H as <-. simpl. apply String.eqb_eq in E2. subst md.
    repeat split; auto.
Qed.

Lemma __init___attached o md am f p x v c ml e c0 :
  __init__ o md am f p x v c ml e = inr c0 -> attached c0.
Proof.
  intros H. destruct (__init___inr _ _ _ _ _ _ _ _ _ _ _ H)
    as (opt & _ & _ & _ & Hlen & _ & Hc).
  unfold attached. rewrite Hlen. rewrite Hc. simpl. lia.
Qed.

(** *** The invariant of constructed objects *)

Lemma __init___invariant o md am f p x v c ml e c0 :
  __init__ o md am f p x v c ml e = inr c0 -> invariant c0.
Proof.
  intros H. pose proof (__init___attached _ _ _ _ _ _ _ _ _ _ _ H) as Hatt.
  destruct (__init___inr _ _ _ _ _ _ _ _ _ _ _ H) as (opt & _ & _ & Hm & _ & _ & Hc).
  split; [exact Hatt|]. rewrite Hc. simpl. split; [exact Hm|]. left. reflexivity.
Qed.

Lemma step_invariant s m a :
  invariant s -> invariant (state_of (step s m a)).
Proof.
  intros (Hatt & Hm & Hc). unfold invariant, attached in *.
  assert (Hloop : forall i,
             List.length (fst (_reduce_lr_loop (factor s) (eps s) (min_lrs s) i
                                 (param_groups (optimizer s))))
             = List.length (param_groups (optimizer s)))
    by (intros i; apply _reduce_lr_loop_length).
  unfold step. rewrite step_is_better_last_epoch.
  destruct (step_is_better s m a) as [e|b]; [simpl; auto|].
  unfold in_cooldown.
  destruct b; [destruct (truthy_opt a)|]; simpl;
    destruct (Z.gtb_spec (cooldown_counter s) 0); simpl;
    match goal with
    | |- context [(?x >? ?y)] => destruct (Z.gtb_spec x y)
    end; simpl;
    try (repeat split; auto; lia);
    unfold _reduce_lr; simpl;
    specialize (Hloop 0%nat);
    match goal with
    | |- context [_reduce_lr_loop ?f ?e ?l ?i ?g] =>
      destruct (_reduce_lr_loop f e l i g) as [groups [ex|]]
    end; simpl in *;
    (split; [lia|]); (split; [exact Hm|]); lia.
Qed.

Lemma run_invariant rounds :
  forall s, invariant s -> invariant (snd (run s rounds)).
Proof.
  induction rounds as [|[m a] rest IH]; intros s H; [exact H|].
  rewrite run_cons. pose proof (step_invariant s m a H) as Hs.
  destruct (step s m a) as [r s1|e s1]; simpl in Hs;
    specialize (IH s1 Hs); destruct (run s1 rest); exact IH.
Qed.

(** In cooldown the effective patience is the default one; with
    [cooldown=0] an object is never in cooldown. *)
Lemma invariant_cooldown s :
  invariant s ->
  (0 < cooldown_counter s -> effective_patience s = default_patience s) /\
  (cooldown s = 0 -> cooldown_counter s = 0).
Proof.
  intros (_ & _ & Hc). split; intros H; lia.
Qed.

(** *** Rounds without improvement, said of the metrics *)

(** A round whose primary metric is not strictly better than [best]
    and whose auxiliary metric does not win a tie is exactly a round on
    which [step] computes [is_better = False]. *)
Lemma bad_round_iff s m a :
  bad_round s (m, a) <-> step_is_better s m a = inr false.
Proof.
  unfold bad_round, better, tie_not_won, step_is_better. simpl. split.
  - intros [Hb Ht].
    destruct (mode s =? "min")%string eqn:Emin, (mode s =? "max")%string eqn:Emax,
             (flt m (best s)) eqn:F1, (flt (best s) m) eqn:F2; simpl in Hb;
      try discriminate;
      (destruct a as [x|]; [|reflexivity]);
      (destruct (feq m (best s)) eqn:Efeq; [|reflexivity]);
      (destruct (truthy x) eqn:Etr; [|reflexivity]); simpl;
      (destruct Ht as [Ht|[Ht|[(ba & Hba & Hn)|[Hn1 Hn2]]]]; try discriminate;
       [ rewrite Hba; simpl;
         destruct (aux_mode s =? "min")%string eqn:A1,
                  (aux_mode s =? "max")%string eqn:A2; simpl;
         try reflexivity;
         try apply String.eqb_eq in A1; try apply String.eqb_eq in A2;
         destruct (flt x ba) eqn:L1, (flt ba x) eqn:L2; try reflexivity;
         exfalso; apply Hn; unfold aux_better; auto
       | apply String.eqb_neq in Hn1; apply String.eqb_neq in Hn2;
         rewrite Hn1, Hn2; reflexivity ]).
  - intros H. split.
    + destruct (mode s =? "min")%string, (mode s =? "max")%string,
               (flt m (best s)), (flt (best s) m); simpl; try reflexivity; exfalso;
        (destruct a as [x|]; [|discriminate]);
        (destruct (feq m (best s) && truthy x); [|discriminate]);
        unfold lt_opt, gt_opt in H;
        destruct (best_aux s) as [ba|];
        destruct (aux_mode s =? "min")%string, (aux_mode s =? "max")%string;
        simpl in H;
        repeat match type of H with
               | context [flt ?p ?q] => destruct (flt p q)
               end; simpl in H; discriminate.
    + destruct a as [x|]; [|exact I].
      destruct (truthy x) eqn:Etr; [|left; reflexivity].
      destruct (feq m (best s)) eqn:Efeq; [|right; left; reflexivity].
      right. right. simpl in H.
      assert (Haux : (is_better <-
                        (if (aux_mode s =? "min")%string
                         then (c <- lt_opt x (best_aux s) ;;
                               inr (if c then true else false))
                         else inr false) ;;
                      (if (aux_mode s =? "max")%string
                       then (c <- gt_opt x (best_aux s) ;;
                             inr (if c then true else is_better))
                       else inr is_better)) = inr false).
      { destruct (mode s =? "min")%string, (mode s =? "max")%string,
                 (flt m (best s)), (flt (best s) m); simpl in H;
          try exact H; exfalso;
          unfold lt_opt, gt_opt in H;
          destruct (best_aux s) as [ba|];
          destruct (aux_mode s =? "min")%string, (aux_mode s =? "max")%string;
          simpl in H;
          repeat match type of H with
                 | context [flt ?p ?q] => destruct (flt p q)
                 end; simpl in H; discriminate. }
      clear H. unfold lt_opt, gt_opt in Haux.
      destruct (best_aux s) as [ba|].
      * left. exists ba. split; [reflexivity|].
        intros [[Hmode Hlt]|[Hmode Hlt]]; rewrite Hmode in Haux; simpl in Haux;
          rewrite Hlt in Haux; simpl in Haux; discriminate.
      * right.
        destruct (aux_mode s =? "min")%string eqn:A1; simpl in Haux; [discriminate|].
        destruct (aux_mode s =? "max")%string eqn:A2; simpl in Haux; [discriminate|].
        apply String.eqb_neq in A1. apply String.eqb_neq in A2. auto.
Qed.

(** *** Claim C1 *)

(** C1, as stated, fails, in two ways.  On an object with [best = 1.0],
    [best_aux = 3.0] and [patience=2], three rounds whose primary metric
    is 1.0 (never better than [best]) and whose auxiliary metrics 2.0,
    1.0 and 0.5 each win the tie-break all return [False]: no reduction
    fires.  And on the same object with one bad round already counted,
    three rounds of metric 2.0 return [False], [True], [False]: the
    reduction fires on the second call, not on the last. *)
Lemma primary_ties_and_counted_rounds_break_the_run :
  Forall (fun round => better (mode tie_state) (fst round) (best tie_state) = false)
    [(Fin 1, Some (Fin 2)); (Fin 1, Some (Fin 1)); (Fin 1, Some (Fin (1 # 2)))] /\
  fst (run tie_state
         [(Fin 1, Some (Fin 2)); (Fin 1, Some (Fin 1)); (Fin 1, Some (Fin (1 # 2)))])
  = [inr false; inr false; inr false] /\
  fst (run one_bad_round_counted [(Fin 2, None); (Fin 2, None); (Fin 2, None)])
  = [inr false; inr true; inr false].
Proof.
  split; [repeat constructor|]. split; reflexivity.
Qed.

(** C1, amended.  Take an object that is not in cooldown (with
    [cooldown=0] it never is), whose count of bad rounds is 0 (as it is
    just after the round that set [best]), whose effective patience [p]
    is not negative and whose groups all have a floor.  Then [p+1]
    consecutive rounds, in each of which the primary metric is not
    strictly better than [best] and the auxiliary metric does not win a
    tie, make [step] answer [False] [p] times and then [True] once, on
    the last call; after that call every parameter group [k] has the
    rate [max(old_lr * factor, min_lrs[k])] when
    [old_lr - new_lr > eps], and its old rate when
    [old_lr - new_lr <= eps]. *)
Theorem bad_rounds_reduce_once :
  forall (s : t) (rounds : list (pyfloat * option pyfloat)),
    cooldown_counter s = 0 ->
    num_bad_epochs s = 0 ->
    0 <= effective_patience s ->
    attached s ->
    List.length rounds = S (Z.to_nat (effective_patience s)) ->
    Forall (bad_round s) rounds ->
    exists s',
      run s rounds
      = (repeat (inr false) (Z.to_nat (effective_patience s)) ++ [inr true], s') /\
      List.length (param_groups (optimizer s')) = List.length (param_groups (optimizer s)) /\
      forall k g,
        nth_error (param_groups (optimizer s)) k = Some g ->
        exists min_lr g',
          nth_error (min_lrs s) k = Some min_lr /\
          nth_error (param_groups (optimizer s')) k = Some g' /\
          let new_lr := Py.max (lr g * factor s)%Q min_lr in
          ((eps s < lr g - new_lr)%Q -> lr g' = new_lr) /\
          ((lr g - new_lr <= eps s)%Q -> lr g' = lr g).
Proof.
  intros s rounds Hc Hnb Hp Hatt Hlen Hbad.
  assert (Hbad' : forall m a, In (m, a) rounds -> step_is_better s m a = inr false).
  { intros m a Hin. apply bad_round_iff.
    rewrite Forall_forall in Hbad. apply Hbad. exact Hin. }
  destruct (run_until_reduction rounds s) as (s' & Hr & Hl & Hg); auto; try lia.
  exists s'. split.
  - rewrite Hr, Hlen. simpl. rewrite Nat.sub_0_r. reflexivity.
  - split; [exact Hl|].
    intros k g Hk. destruct (Hg k g Hk) as (mn & H1 & H2).
    exists mn, (reduced_group (factor s) (eps s) mn g).
    split; [exact H1|]. split; [exact H2|].
    pose proof (reduced_group_lr (factor s) (eps s) mn g) as (Ha & Hb & _).
    split; assumption.
Qed.

Lemma bad_rounds_reduce_once_witness :
  exists s',
    run tie_state [(Fin 1, Some (Fin 5)); (Fin 2, None); (Fin 1, Some (Fin 3))]
    = ([inr false; inr false; inr true], s') /\
    map lr (param_groups (optimizer s')) = [(1 * (1 # 2))%Q].
Proof.
  destruct (bad_rounds_reduce_once tie_state
              [(Fin 1, Some (Fin 5)); (Fin 2, None); (Fin 1, Some (Fin 3))])
    as (s' & Hr & _ & _).
  - reflexivity.
  - reflexivity.
  - simpl. lia.
  - unfold attached. simpl. lia.
  - reflexivity.
  - assert (Hlost : forall x,
               flt x (Fin 3) = false ->
               bad_round tie_state (Fin 1, Some x)).
    { intros x Hx. split; [reflexivity|]. simpl.
      right. right. left. exists (Fin 3). split; [reflexivity|].
      intros [[_ H]|[H _]]; [congruence|discriminate]. }
    constructor; [apply Hlost; reflexivity|].
    constructor; [split; [reflexivity|exact I]|].
    constructor; [apply Hlost; reflexivity|constructor].
  - exists s'. split; [exact Hr|].
    vm_compute in Hr. injection Hr as <-. reflexivity.
Defined.

(** *** Claim C2 *)

Lemma _reduce_lr_attached s ep :
  attached s ->
  exists groups,
    _reduce_lr s ep = Returns tt (set_optimizer {| param_groups := groups |} s) /\
    List.length groups = List.length (param_groups (optimizer s)).
Proof.
  intros Hatt. unfold _reduce_lr.
  pose proof (_reduce_lr_loop_attached (factor s) (eps s) (min_lrs s)
                (param_groups (optimizer s)) 0 Hatt) as [He _].
  pose proof (_reduce_lr_loop_length (factor s) (eps s) (min_lrs s)
                (param_groups (optimizer s)) 0) as Hl.
  destruct (_reduce_lr_loop (factor s) (eps s) (min_lrs s) 0
              (param_groups (optimizer s))) as [groups e].
  simpl in *. subst e. exists groups. auto.
Qed.

Lemma tie_break_is_better s m aux ba :
  feq m (best s) = true ->
  truthy aux = true ->
  best_aux s = Some ba ->
  aux_better (aux_mode s) aux ba ->
  step_is_better s m (Some aux) = inr true.
Proof.
  intros Hm Ht Hb Hbetter. unfold step_is_better.
  rewrite Hm, Ht, Hb. simpl.
  destruct Hbetter as [[Hmode Hlt]|[Hmode Hlt]]; rewrite Hmode; simpl; rewrite Hlt;
    reflexivity.
Qed.

(** An improving round always returns when every group has a floor. *)
Lemma step_improving s m a :
  step_is_better s m a = inr true ->
  attached s ->
  exists r s',
    step s m a = Returns r s' /\ best s' = m /\ num_bad_epochs s' = 0 /\
    best_aux s' = (if truthy_opt a then a else best_aux s).
Proof.
  intros H Hatt. unfold step. rewrite step_is_better_last_epoch, H.
  unfold in_cooldown.
  destruct (truthy_opt a); simpl;
    destruct (cooldown_counter s >? 0); simpl;
    match goal with
    | |- context [(0 >? ?p)] => destruct (0 >? p)
    end;
    try (do 2 eexists; split; [reflexivity|]; simpl; auto);
    match goal with
    | |- context [_reduce_lr ?st ?ep] =>
      destruct (_reduce_lr_attached st ep Hatt) as (groups & -> & _)
    end;
    do 2 eexists; (split; [reflexivity|]); simpl; auto.
Qed.

(** C2.  When the primary metric is equal to [best] and a truthy
    auxiliary metric is supplied that is strictly better than
    [best_aux] under [aux_mode], the round is an improvement:
    [is_better] is [True], and the call returns with [best_aux] set to
    the supplied value and [num_bad_epochs] reset to 0. *)
Theorem tie_break_registers_improvement :
  forall (s : t) (m aux ba : pyfloat),
    feq m (best s) = true ->
    truthy aux = true ->
    best_aux s = Some ba ->
    aux_better (aux_mode s) aux ba ->
    attached s ->
    step_is_better s m (Some aux) = inr true /\
    exists r s',
      step s m (Some aux) = Returns r s' /\
      best_aux s' = Some aux /\ num_bad_epochs s' = 0.
Proof.
  intros s m aux ba Hm Ht Hb Hbetter Hatt.
  pose proof (tie_break_is_better s m aux ba Hm Ht Hb Hbetter) as Hib.
  split; [exact Hib|].
  destruct (step_improving s m (Some aux) Hib Hatt) as (r & s' & Hs & _ & Hn & Ha).
  exists r, s'. simpl in Ha. rewrite Ht in Ha. auto.
Qed.

Lemma tie_break_registers_improvement_witness :
  step_is_better in_cooldown_state (Fin 1) (Some (Fin 2)) = inr true /\
  exists r s',
    step in_cooldown_state (Fin 1) (Some (Fin 2)) = Returns r s' /\
    best_aux s' = Some (Fin 2) /\ num_bad_epochs s' = 0.
Proof.
  apply (tie_break_registers_improvement in_cooldown_state (Fin 1) (Fin 2) (Fin 3)).
  - reflexivity.
  - reflexivity.
  - reflexivity.
  - left. split; reflexivity.
  - unfold attached. simpl. lia.
Defined.

(** *** Claim C3 *)

(** What a call leaves of the patience and cooldown settings. *)
Lemma step_outcome s m a :
  match step s m a with
  | Returns true s' =>
    effective_patience s' = default_patience s /\
    cooldown_counter s' = cooldown s /\ num_bad_epochs s' = 0 /\
    default_patience s' = default_patience s /\ cooldown s' = cooldown s
  | Returns false s' =>
    effective_patience s' = effective_patience s /\
    default_patience s' = default_patience s /\ cooldown s' = cooldown s /\
    optimizer s' = optimizer s
  | Raises e s' =>
    effective_patience s' = effective_patience s /\
    default_patience s' = default_patience s /\ cooldown s' = cooldown s
  end.
Proof.
  unfold step. rewrite step_is_better_last_epoch.
  destruct (step_is_better s m a) as [e|b]; [simpl; auto|].
  unfold in_cooldown.
  destruct b; [destruct (truthy_opt a)|]; simpl;
    destruct (cooldown_counter s >? 0); simpl;
    match goal with
    | |- context [(?x >? ?y)] => destruct (x >? y)
    end; simpl; auto;
    unfold _reduce_lr; simpl;
    match goal with
    | |- context [_reduce_lr_loop ?f ?e ?l ?i ?g] =>
      destruct (_reduce_lr_loop f e l i g) as [groups [ex|]]
    end; simpl; auto.
Qed.

(** A bad round in cooldown. *)
Lemma step_bad_in_cooldown s m a :
  step_is_better s m a = inr false ->
  0 < cooldown_counter s ->
  0 <= effective_patience s ->
  exists s',
    step s m a = Returns false s' /\
    cooldown_counter s' = cooldown_counter s - 1 /\ num_bad_epochs s' = 0 /\
    effective_patience s' = effective_patience s /\
    (forall m' a', step_is_better s' m' a' = step_is_better s m' a').
Proof.
  intros H Hc Hp. unfold step. rewrite step_is_better_last_epoch, H.
  unfold in_cooldown. simpl. gtb_cases.
  eexists. split; [reflexivity|]. simpl. repeat split.
Qed.

(** C3, as stated, fails: the object
    [AnnealOnPlateau(optimizer, factor=0.5, patience=-1, cooldown=2)] is
    in cooldown after its first call, with [cooldown_counter = 2]; the
    second call, made in cooldown, returns [True], halves the rate again
    and leaves [cooldown_counter] at 2 instead of decrementing it. *)
Lemma negative_patience_reduces_in_cooldown :
  cooldown_counter_after negative_patience [(Fin 1, None)] = Some 2 /\
  results_after negative_patience [(Fin 1, None); (Fin 1, None)]
  = Some [inr true; inr true] /\
  cooldown_counter_after negative_patience [(Fin 1, None); (Fin 1, None)] = Some 2 /\
  rates_after negative_patience [(Fin 1, None); (Fin 1, None)] = Some [1 # 4].
Proof. repeat split; reflexivity. Qed.

(** C3, amended.  On an object whose effective patience is not
    negative, a call of [step] made while [cooldown_counter > 0] returns
    [False] with [cooldown_counter] decremented by one and
    [num_bad_epochs] equal to 0, whether or not the metric improved; the
    one way such a call does not return is the [TypeError] of the
    tie-break against a [best_aux] that is [None].  In particular, when
    a call returned [True] on an object with [cooldown=2] and a patience
    that is not negative, the next two rounds without improvement (the
    primary metric not strictly better than [best], the auxiliary metric
    not winning a tie) both return [False] and leave [num_bad_epochs] at
    0. *)
Theorem cooldown_rounds_never_count :
  (forall (s : t) (m : pyfloat) (a : option pyfloat),
      0 < cooldown_counter s ->
      0 <= effective_patience s ->
      match step s m a with
      | Returns r s' =>
        r = false /\ cooldown_counter s' = cooldown_counter s - 1 /\
        num_bad_epochs s' = 0
      | Raises e s' => e = TypeError /\ step_is_better s m a = inl TypeError
      end) /\
  (forall (s s1 : t) (m m1 m2 : pyfloat) (a a1 a2 : option pyfloat),
      cooldown s = 2 ->
      0 <= default_patience s ->
      step s m a = Returns true s1 ->
      bad_round s1 (m1, a1) ->
      bad_round s1 (m2, a2) ->
      exists s2 s3,
        step s1 m1 a1 = Returns false s2 /\ num_bad_epochs s2 = 0 /\
        step s2 m2 a2 = Returns false s3 /\ num_bad_epochs s3 = 0).
Proof.
  split.
  - intros s m a Hc Hp. pose proof (step_in_cooldown s m a Hc Hp) as H.
    destruct (step s m a) as [r s'|e s']; [|exact H].
    destruct H as (H1 & H2 & H3 & _). auto.
  - intros s s1 m m1 m2 a a1 a2 Hcd Hdp Hs H1 H2.
    apply bad_round_iff in H1. apply bad_round_iff in H2.
    pose proof (step_outcome s m a) as Ho. rewrite Hs in Ho.
    destruct Ho as (Hep & Hcc & Hnb & _ & _).
    destruct (step_bad_in_cooldown s1 m1 a1 H1) as (s2 & Hs2 & Hc2 & Hn2 & He2 & Hib);
      try lia.
    destruct (step_bad_in_cooldown s2 m2 a2) as (s3 & Hs3 & Hc3 & Hn3 & _ & _);
      try lia.
    + rewrite Hib. exact H2.
    + exists s2, s3. auto.
Qed.

Lemma cooldown_rounds_never_count_witness :
  (exists s',
      step in_cooldown_state (Fin 5) None = Returns false s' /\
      cooldown_counter s' = 1 /\ num_bad_epochs s' = 0) /\
  (exists s2 s3,
      step in_cooldown_state (Fin 5) None = Returns false s2 /\ num_bad_epochs s2 = 0 /\
      step s2 (Fin 6) None = Returns false s3 /\ num_bad_epochs s3 = 0).
Proof.
  destruct cooldown_rounds_never_count as [Hfirst Hsecond].
  split.
  - pose proof (Hfirst in_cooldown_state (Fin 5) None) as H.
    destruct (step in_cooldown_state (Fin 5) None) as [r s'|e s'] eqn:E.
    + destruct H as (-> & H2 & H3); [reflexivity|simpl; lia|].
      exists s'. auto.
    + vm_compute in E. discriminate.
  - apply (Hsecond
             {| factor := 1 # 2; optimizer := one_group 1; min_lrs := [0%Q];
                default_patience := 1; effective_patience := 1; verbose := false;
                cooldown := 2; cooldown_counter := 0; mode := "min"; aux_mode := "min";
                best := Fin 1; best_aux := Some (Fin 3); num_bad_epochs := 1;
                mode_worse := PInf; eps := 1 # 100000000; last_epoch := 2;
                _last_lr := Some [1%Q] |}
             in_cooldown_state (Fin 1) (Fin 5) (Fin 6) None None None).
    + reflexivity.
    + simpl. lia.
    + reflexivity.
    + split; [reflexivity|exact I].
    + split; [reflexivity|exact I].
Defined.

(** *** Claim C4 *)

Lemma run_effective_patience rounds :
  forall s,
    default_patience (snd (run s rounds)) = default_patience s /\
    effective_patience (snd (run s rounds))
    = if existsb is_reduction (fst (run s rounds))
      then default_patience s
      else effective_patience s.
Proof.
  induction rounds as [|[m a] rest IH]; intros s.
  - simpl. auto.
  - rewrite run_cons. pose proof (step_outcome s m a) as Ho.
    destruct (step s m a) as [[|] s1|e s1];
      specialize (IH s1); destruct (run s1 rest) as [rs s']; simpl in *.
    + destruct Ho as (He & _ & _ & Hd & _). destruct IH as [IH1 IH2].
      split; [congruence|].
      rewrite IH2. destruct (existsb is_reduction rs); congruence.
    + destruct Ho as (He & Hd & _). destruct IH as [IH1 IH2].
      split; [congruence|].
      rewrite IH2. destruct (existsb is_reduction rs); congruence.
    + destruct Ho as (He & Hd & _). destruct IH as [IH1 IH2].
      split; [congruence|].
      rewrite IH2. destruct (existsb is_reduction rs); congruence.
Qed.

(** C4.  On the object [__init__] builds, [effective_patience] is
    [patience + initial_extra_patience]; after any sequence of calls
    of [step] it still has that value if no call returned [True], and
    it is [patience] as soon as one did, whatever calls came after. *)
Theorem effective_patience_lifecycle :
  forall o md am f p x v c ml e c0,
    __init__ o md am f p x v c ml e = inr c0 ->
    effective_patience c0 = p + x /\
    forall rounds,
      effective_patience (snd (run c0 rounds))
      = if existsb is_reduction (fst (run c0 rounds)) then p else p + x.
Proof.
  intros o md am f p x v c ml e c0 H.
  destruct (__init___inr _ _ _ _ _ _ _ _ _ _ _ H) as (opt & _ & _ & _ & _ & _ & Hc).
  assert (He : effective_patience c0 = p + x) by (rewrite Hc; reflexivity).
  assert (Hd : default_patience c0 = p) by (rewrite Hc; reflexivity).
  split; [exact He|].
  intros rounds. destruct (run_effective_patience rounds c0) as [_ H2].
  rewrite H2, He, Hd. reflexivity.
Qed.

Lemma effective_patience_lifecycle_witness :
  effective_patience
    (snd (run {| factor := 1 # 2; optimizer := one_group 1; min_lrs := [0%Q];
                 default_patience := 1; effective_patience := 3; verbose := false;
                 cooldown := 0; cooldown_counter := 0; mode := "min";
                 aux_mode := "min"; best := PInf; best_aux := None;
                 num_bad_epochs := 0; mode_worse := PInf; eps := 0; last_epoch := 0;
                 _last_lr := None |}
              [(Fin 1, None); (Fin 1, None); (Fin 1, None); (Fin 1, None);
               (Fin 1, None); (Fin 1, None)]))
  = 1.
Proof.
  apply (effective_patience_lifecycle (OptimizerObj (one_group 1)) "min" "min"
           (1 # 2) 1 2 false 0 (MinLrScalar 0) 0 _ eq_refl).
Defined.

(** *** Claim C5 *)

Lemma step_same_but_unread a b m x :
  same_but_unread a b -> outcomes_agree (step a m x) (step b m x).
Proof.
  intros H. destruct a, b. unfold same_but_unread in H. simpl in H.
  injection H as -> -> -> -> -> -> -> -> -> -> -> -> -> -> ->.
  unfold step. rewrite !step_is_better_last_epoch.
  unfold step_is_better at 1 2. simpl.
  match goal with
  | |- outcomes_agree (match ?c with _ => _ end) _ => destruct c as [e|ib]
  end; [simpl; split; reflexivity|].
  unfold in_cooldown, _reduce_lr.
  destruct ib; [destruct (truthy_opt x)|]; simpl;
    match goal with
    | |- context [(?c >? 0)] => destruct (c >? 0)
    end; simpl;
    match goal with
    | |- context [(?p >? ?q)] => destruct (p >? q)
    end; simpl;
    try (split; reflexivity);
    match goal with
    | |- context [_reduce_lr_loop ?f ?e ?l ?i ?g] =>
      destruct (_reduce_lr_loop f e l i g) as [groups [ex|]]
    end; simpl; split; reflexivity.
Qed.

Lemma run_same_but_unread rounds :
  forall a b,
    same_but_unread a b ->
    fst (run a rounds) = fst (run b rounds) /\
    same_but_unread (snd (run a rounds)) (snd (run b rounds)).
Proof.
  induction rounds as [|[m x] rest IH]; intros a b H.
  - simpl. auto.
  - rewrite !run_cons. pose proof (step_same_but_unread a b m x H) as Hs.
    unfold outcomes_agree in Hs.
    destruct (step a m x) as [r a'|e a'], (step b m x) as [r' b'|e' b'];
      try contradiction; destruct Hs as [<- Hs];
      destruct (IH a' b' Hs) as [H1 H2];
      destruct (run a' rest) as [rs1 s1], (run b' rest) as [rs2 s2];
      simpl in *; subst; auto.
Qed.

Lemma same_but_unread_optimizer a b :
  same_but_unread a b -> optimizer a = optimizer b.
Proof.
  intros H. apply (f_equal optimizer) in H. exact H.
Qed.

(** Restoring an exported state gives back every attribute that
    [step] reads. *)
Lemma load_state_dict_state_dict self other :
  (mode self = "min"%string \/ mode self = "max"%string) ->
  optimizer other = optimizer self ->
  exists restored,
    load_state_dict other (state_dict self) = inr restored /\
    same_but_unread restored self.
Proof.
  intros Hm Ho. unfold load_state_dict, state_dict, _init_is_better. simpl.
  destruct self. simpl in *. subst.
  destruct Hm as [-> | ->]; simpl;
    (eexists; split; [reflexivity|]); reflexivity.
Qed.

(** C5.  Let [self] be an object whose mode is one [__init__] accepts
    (as it is in every state reached from a construction), and
    [other] any object bound to the same parameter groups.  Then
    [other.load_state_dict(self.state_dict())] succeeds, and on every
    later sequence of primary and auxiliary metrics the restored object
    gives the same outcome at each call of [step] as [self] would, and
    leaves the parameter groups, and every attribute but [mode_worse]
    and [_last_lr], as [self] would. *)
Theorem state_dict_round_trip :
  forall (self other : t) (rounds : list (pyfloat * option pyfloat)),
    (mode self = "min"%string \/ mode self = "max"%string) ->
    optimizer other = optimizer self ->
    exists restored,
      load_state_dict other (state_dict self) = inr restored /\
      fst (run restored rounds) = fst (run self rounds) /\
      optimizer (snd (run restored rounds)) = optimizer (snd (run self rounds)) /\
      same_but_unread (snd (run restored rounds)) (snd (run self rounds)).
Proof.
  intros self other rounds Hm Ho.
  destruct (load_state_dict_state_dict self other Hm Ho) as (restored & Hl & Hs).
  exists restored. split; [exact Hl|].
  destruct (run_same_but_unread rounds restored self Hs) as [H1 H2].
  split; [exact H1|]. split; [|exact H2].
  apply same_but_unread_optimizer. exact H2.
Qed.

Lemma state_dict_round_trip_witness :
  exists restored,
    load_state_dict (set_optimizer (one_group 1) in_cooldown_state)
      (state_dict scenario_best_set) = inr restored /\
    fst (run restored [(Fin 1, None); (Fin 1, None); (Fin 1, None); (Fin 1, None)])
    = [inr false; inr false; inr true; inr false].
Proof.
  destruct (state_dict_round_trip scenario_best_set
              (set_optimizer (one_group 1) in_cooldown_state)
              [(Fin 1, None); (Fin 1, None); (Fin 1, None); (Fin 1, None)])
    as (restored & Hl & Hr & _).
  - left. reflexivity.
  - reflexivity.
  - exists restored. split.
    + exact Hl.
    + rewrite Hr. reflexivity.
Defined.

(** *** Claim C6 *)

(** C6, as stated, fails: a factor of -0.5 (outside (0,1)), a patience
    of -1 and a cooldown of -1 are all accepted by [__init__]. *)
Lemma init_accepts_negative_arguments :
  spec_invalid_arguments (one_group 1) (- 1 # 2) (-1) (-1) (MinLrScalar 0) /\
  ~ raised negative_arguments.
Proof.
  split.
  - right. left. lia.
  - vm_compute. tauto.
Qed.

(** C6, amended.  [__init__] raises exactly when the factor is at
    least 1, or the optimizer argument is not an [Optimizer], or
    [min_lr] is a list whose length is not the number of parameter
    groups, or the mode is neither ["min"] nor ["max"]; every other
    argument, a factor at or below 0 and a negative patience or
    cooldown included, is accepted. *)
Theorem init_raises_iff :
  forall (o : pyobject) (md am : string) (f : Q) (p x : Z) (v : bool) (c : Z)
         (ml : min_lr_arg) (e : Q),
    raised (__init__ o md am f p x v c ml e) <->
    ((1 <= f)%Q \/
     o = OtherObj \/
     (exists opt l,
         o = OptimizerObj opt /\ ml = MinLrList l /\
         List.length l <> List.length (param_groups opt)) \/
     (md <> "min"%string /\ md <> "max"%string)).
Proof.
  intros o md am f p x v c ml e. unfold __init__.
  destruct (Qle_bool 1 f) eqn:Ef.
  { apply Qle_bool_iff in Ef. simpl. tauto. }
  assert (Hf : ~ (1 <= f)%Q).
  { intros H. apply Qle_bool_iff in H. congruence. }
  destruct o as [opt|].
  2:{ simpl. tauto. }
  assert (Hmode : raised (_init_is_better
                            {| factor := f; optimizer := opt;
                               min_lrs := match ml with
                                          | MinLrList l => l
                                          | MinLrScalar q =>
                                            repeat q (List.length (param_groups opt))
                                          end;
                               default_patience := p; effective_patience := p + x;
                               verbose := v; cooldown := c; cooldown_counter := 0;
                               mode := md; aux_mode := am; best := NaN; best_aux := None;
                               num_bad_epochs := 0; mode_worse := NaN; eps := e;
                               last_epoch := 0; _last_lr := None |} md)
                  <-> (md <> "min"%string /\ md <> "max"%string)).
  { unfold _init_is_better.
    destruct (md =? "min")%string eqn:E1; simpl.
    - apply String.eqb_eq in E1. tauto.
    - apply String.eqb_neq in E1.
      destruct (md =? "max")%string eqn:E2; simpl.
      + apply String.eqb_eq in E2. tauto.
      + apply String.eqb_neq in E2. tauto. }
  assert (Hraised : forall r : exn + t, raised (self <- r ;; inr (_reset self)) <-> raised r).
  { intros [ex|self]; simpl; tauto. }
  destruct ml as [q|l].
  - simpl Py.bind. rewrite Hraised, Hmode. split.
    + intros H. right. right. right. exact H.
    + intros [H|[H|[(opt' & l' & _ & H & _)|H]]]; try contradiction; try discriminate.
      exact H.
  - destruct (Nat.eqb (List.length l) (List.length (param_groups opt))) eqn:El.
    + apply Nat.eqb_eq in El. simpl Py.bind. rewrite Hraised, Hmode. split.
      * intros H. right. right. right. exact H.
      * intros [H|[H|[(opt' & l' & Ho & Hl & Hn)|H]]]; try contradiction;
          try discriminate; [|exact H].
        injection Ho as <-. injection Hl as <-. contradiction.
    + apply Nat.eqb_neq in El. simpl. split; [|tauto].
      intros _. right. right. left. exists opt, l. auto.
Qed.

(** *** Claim C7 *)

(** C7.  The failing input: on the scenario object, [step(0.5)] sets
    [best] and leaves [best_aux] at [None]; the next call
    [step(0.5, 0.3)] ties on the primary metric, compares [0.3] with
    [None] and raises [TypeError]. *)
Theorem step_raises_on_tie_without_best_aux :
  results_after scenario
    [(Fin (1 # 2), None); (Fin (1 # 2), Some (Fin (3 # 10)))]
  = Some [inr false; inl TypeError].
Proof. reflexivity. Qed.

(** *** Claim C10 *)

(** The groups after a call are the groups before it, or what the
    loop of [_reduce_lr] made of them. *)
Lemma step_groups s m a :
  param_groups (optimizer (state_of (step s m a))) = param_groups (optimizer s) \/
  param_groups (optimizer (state_of (step s m a)))
  = fst (_reduce_lr_loop (factor s) (eps s) (min_lrs s) 0 (param_groups (optimizer s))).
Proof.
  unfold step. rewrite step_is_better_last_epoch.
  destruct (step_is_better s m a) as [e|b]; [simpl; auto|].
  unfold in_cooldown.
  destruct b; [destruct (truthy_opt a)|]; simpl;
    destruct (cooldown_counter s >? 0); simpl;
    match goal with
    | |- context [(?x >? ?y)] => destruct (x >? y)
    end; simpl; auto;
    unfold _reduce_lr; simpl;
    match goal with
    | |- context [_reduce_lr_loop ?f ?e ?l ?i ?g] =>
      destruct (_reduce_lr_loop f e l i g) as [groups [ex|]]
    end; simpl; auto.
Qed.

(** C10, as stated, fails: with [eps=-1] a group whose rate 0.1 is
    below its floor 0.5 is raised to the floor by the reduction. *)
Lemma negative_eps_raises_rate :
  rates_after negative_eps [] = Some [1 # 10] /\
  rates_after negative_eps [(Fin 1, None); (Fin 1, None)] = Some [1 # 2].
Proof. split; reflexivity. Qed.

(** C10, amended.  On an object whose [eps] is not negative, no call
    of [step] increases the rate of a parameter group: the call keeps
    the groups' number, and leaves each group as it was or writes
    [max(old_lr * factor, min_lrs[k])] into its rate, which it does only
    when [old_lr - max(old_lr * factor, min_lrs[k]) > eps], a strict
    decrease.  A group whose rate is at or below its floor is left as
    it was. *)
Theorem step_never_increases_rate :
  forall (s : t) (m : pyfloat) (a : option pyfloat),
    (0 <= eps s)%Q ->
    List.length (param_groups (optimizer (state_of (step s m a))))
    = List.length (param_groups (optimizer s)) /\
    forall k g g',
      nth_error (param_groups (optimizer s)) k = Some g ->
      nth_error (param_groups (optimizer (state_of (step s m a)))) k = Some g' ->
      (lr g' <= lr g)%Q /\
      (g' = g \/
       exists min_lr,
         nth_error (min_lrs s) k = Some min_lr /\
         (eps s < lr g - Py.max (lr g * factor s) min_lr)%Q /\
         g' = set_lr (Py.max (lr g * factor s) min_lr) g /\
         (lr g' < lr g)%Q) /\
      (forall min_lr,
          nth_error (min_lrs s) k = Some min_lr -> (lr g <= min_lr)%Q -> g' = g).
Proof.
  intros s m a Heps.
  destruct (step_groups s m a) as [Hg|Hg]; rewrite Hg.
  - split; [reflexivity|]. intros k g g' H1 H2.
    assert (g' = g) as -> by congruence.
    split; [apply Qle_refl|]. split; [left; reflexivity|]. reflexivity.
  - split; [apply _reduce_lr_loop_length|]. intros k g g' H1 H2.
    destruct (_reduce_lr_loop_nth _ _ _ _ _ _ _ _ H1 H2) as [->|(mn & Hm & Hw & ->)].
    + split; [apply Qle_refl|]. split; [left; reflexivity|]. reflexivity.
    + simpl in Hm. apply Qltb_lt in Hw.
      assert (Hlt : (Py.max (lr g * factor s) mn < lr g)%Q) by Lqa.lra.
      split; [simpl; apply Qlt_le_weak; exact Hlt|].
      split.
      * right. exists mn. simpl. auto.
      * intros mn' Hm' Hfloor. exfalso.
        assert (mn' = mn) as -> by congruence.
        pose proof (max_ge_r (lr g * factor s) mn). Lqa.lra.
Qed.

Lemma step_never_increases_rate_witness :
  match
    nth_error (param_groups (optimizer (state_of (step scenario_best_set (Fin 1) None)))) 0
  with
  | Some g' => (lr g' <= 1)%Q
  | None => False
  end.
Proof.
  destruct (step_never_increases_rate scenario_best_set (Fin 1) None) as [_ Hk].
  - simpl. Lqa.lra.
  - destruct (nth_error
                (param_groups (optimizer (state_of (step scenario_best_set (Fin 1) None))))
                0) as [g'|] eqn:E.
    + destruct (Hk 0%nat {| lr := 1; weight_decay := 0 |} g' eq_refl E) as [Hle _].
      exact Hle.
    + vm_compute in E. discriminate.
Defined.

End AnnealOnPlateauFacts.

(** ** [ExpAnnealLR] *)

Module ExpAnnealLRFacts.

Import ExpAnnealLR.
Local Open Scope R_scope.

Lemma get_lr_list_positive self pct lrs :
  0 < end_lr self ->
  Forall (fun b => 0 < b) lrs ->
  get_lr_list self pct lrs
  = Some (map (fun base_lr => base_lr * Rpower (end_lr self / base_lr) pct) lrs).
Proof.
  intros He Hpos. induction Hpos as [|b rest Hb Hrest IH]; [reflexivity|].
  simpl. rewrite IH. unfold get_lr_group, pow.
  destruct (Req_dec_T b 0) as [E|_]; [Lra.lra|].
  destruct (Rlt_dec 0 (end_lr self / b)) as [_|N]; [reflexivity|].
  exfalso. apply N. apply Rdiv_lt_0_compat; assumption.
Qed.

Lemma get_lr_positive self :
  0 < end_lr self ->
  (0 < iterations self)%Z ->
  Forall (fun b => 0 < b) (base_lrs self) ->
  get_lr self
  = Some (map (fun base_lr =>
                 base_lr * Rpower (end_lr self / base_lr)
                             (IZR (last_epoch self + 1) / IZR (iterations self)))
            (base_lrs self)).
Proof.
  intros He Hi Hpos. unfold get_lr.
  destruct (Z.eqb_spec (iterations self) 0) as [E|_]; [lia|].
  apply get_lr_list_positive; assumption.
Qed.

(** A base in (0,1) raised to a larger exponent is smaller. *)
Lemma Rpower_decreasing r p q :
  0 < r < 1 -> p < q -> Rpower r q < Rpower r p.
Proof.
  intros [H0 H1] Hpq. unfold Rpower. apply exp_increasing.
  assert (Hln : ln r < 0).
  { rewrite <- ln_1. apply ln_increasing; assumption. }
  rewrite (Rmult_comm q), (Rmult_comm p).
  apply Rmult_lt_gt_compat_neg_l; assumption.
Qed.

Lemma rates_decrease self p q lrs :
  0 < end_lr self ->
  p < q ->
  Forall (fun b => end_lr self < b) lrs ->
  Forall2 (fun r1 r2 => r2 < r1)
    (map (fun base_lr => base_lr * Rpower (end_lr self / base_lr) p) lrs)
    (map (fun base_lr => base_lr * Rpower (end_lr self / base_lr) q) lrs).
Proof.
  intros He Hpq Hlt. induction Hlt as [|b rest Hb Hrest IH]; simpl; constructor.
  - apply Rmult_lt_compat_l; [Lra.lra|].
    apply Rpower_decreasing; [|exact Hpq]. split.
    + apply Rdiv_lt_0_compat; Lra.lra.
    + apply (Rmult_lt_reg_r b); [Lra.lra|].
      unfold Rdiv. rewrite Rmult_assoc, Rinv_l; Lra.lra.
  - exact IH.
Qed.

(** C9.  Write [s] for the iteration [get_lr] computes the rate of:
    the method reads it as [last_epoch + 1], the number of calls of
    the scheduler's [step] so far.  For a positive [end_lr], a positive
    number of iterations and positive base rates, the rate of every
    group at iteration [s] is
    [base_lr * (end_lr / base_lr) ** (s / iterations)].  With a base
    rate of 1.0, [end_lr=0.01] and 100 iterations the rate is 1.0 at
    iteration 0 and 0.01 at iteration 100.  When [end_lr] is below the
    base rates, a later iteration has a strictly smaller rate. *)
Theorem exp_anneal_rate :
  (forall (self : t) (s : Z),
      0 < end_lr self ->
      (0 < iterations self)%Z ->
      Forall (fun b => 0 < b) (base_lrs self) ->
      get_lr (set_last_epoch (s - 1) self)
      = Some (map (fun base_lr =>
                     base_lr * Rpower (end_lr self / base_lr)
                                 (IZR s / IZR (iterations self)))
                (base_lrs self))) /\
  get_lr (example (0 - 1)) = Some [1] /\
  get_lr (example (100 - 1)) = Some [1 / 100] /\
  (forall (self : t) (s1 s2 : Z),
      0 < end_lr self ->
      (0 < iterations self)%Z ->
      Forall (fun b => end_lr self < b) (base_lrs self) ->
      (s1 < s2)%Z ->
      exists l1 l2,
        get_lr (set_last_epoch (s1 - 1) self) = Some l1 /\
        get_lr (set_last_epoch (s2 - 1) self) = Some l2 /\
        Forall2 (fun r1 r2 => r2 < r1) l1 l2).
Proof.
  assert (Hrate : forall (self : t) (s : Z),
             0 < end_lr self ->
             (0 < iterations self)%Z ->
             Forall (fun b => 0 < b) (base_lrs self) ->
             get_lr (set_last_epoch (s - 1) self)
             = Some (map (fun base_lr =>
                            base_lr * Rpower (end_lr self / base_lr)
                                        (IZR s / IZR (iterations self)))
                       (base_lrs self))).
  { intros self s He Hi Hpos.
    rewrite (get_lr_positive (set_last_epoch (s - 1) self) He Hi Hpos). simpl.
    replace (s - 1 + 1)%Z with s by lia. reflexivity. }
  split; [exact Hrate|]. split; [|split].
  - change (example (0 - 1)) with (set_last_epoch (0 - 1) (example 0)).
    rewrite Hrate; simpl; try Lra.lra; try lia.
    + replace (0 / 100) with 0 by Lra.lra.
      rewrite Rpower_O; [|Lra.lra]. f_equal. f_equal. Lra.lra.
    + constructor; [Lra.lra|constructor].
  - change (example (100 - 1)) with (set_last_epoch (100 - 1) (example 0)).
    rewrite Hrate; simpl; try Lra.lra; try lia.
    + replace (100 / 100) with 1 by Lra.lra.
      rewrite Rpower_1; [|Lra.lra]. f_equal. f_equal. Lra.lra.
    + constructor; [Lra.lra|constructor].
  - intros self s1 s2 He Hi Hlt Hs.
    assert (Hpos : Forall (fun b => 0 < b) (base_lrs self)).
    { eapply Forall_impl; [|exact Hlt]. simpl. intros b Hb. Lra.lra. }
    do 2 eexists. rewrite !Hrate by assumption.
    split; [reflexivity|]. split; [reflexivity|].
    apply rates_decrease; try assumption.
    apply Rmult_lt_compat_r.
    + apply Rinv_0_lt_compat. apply IZR_lt. exact Hi.
    + apply IZR_lt. exact Hs.
Qed.

Lemma exp_anneal_rate_witness :
  exists l1 l2,
    get_lr (set_last_epoch (1 - 1) (example 0)) = Some l1 /\
    get_lr (set_last_epoch (2 - 1) (example 0)) = Some l2 /\
    Forall2 (fun r1 r2 => r2 < r1) l1 l2.
Proof.
  destruct exp_anneal_rate as (_ & _ & _ & Hmono).
  apply (Hmono (example 0) 1%Z 2%Z).
  - simpl. Lra.lra.
  - simpl. lia.
  - simpl. constructor; [Lra.lra|constructor].
  - lia.
Defined.

End ExpAnnealLRFacts.

(** ** [ReduceLRWDOnPlateau] *)

Module ReduceLRWDOnPlateauFacts.

Import ReduceLRWDOnPlateau PyFacts.
Local Open Scope Z_scope.

Lemma _reduce_weight_decay_loop_attached factor eps mins groups :
  forall i,
    (i + List.length groups <= List.length mins)%nat ->
    snd (_reduce_weight_decay_loop factor eps mins i groups) = None /\
    List.length (fst (_reduce_weight_decay_loop factor eps mins i groups))
    = List.length groups /\
    forall k g,
      nth_error groups k = Some g ->
      exists min_lr,
        nth_error mins (i + k) = Some min_lr /\
        nth_error (fst (_reduce_weight_decay_loop factor eps mins i groups)) k
        = Some (reduced_weight_decay factor eps min_lr g).
Proof.
  induction groups as [|g0 rest IH]; intros i Hlen; simpl in *.
  - repeat split. intros [|k] g H; discriminate.
  - destruct (nth_error mins i) as [m|] eqn:Em.
    2:{ apply nth_error_None in Em. lia. }
    destruct (IH (S i)) as (He & Hl & Hn); [lia|].
    assert (Hcase :
              forall g1,
                (g1 = reduced_weight_decay factor eps m g0) ->
                snd (let (rest', e) :=
                       _reduce_weight_decay_loop factor eps mins (S i) rest in
                     (g1 :: rest', e)) = None /\
                List.length
                  (fst (let (rest', e) :=
                          _reduce_weight_decay_loop factor eps mins (S i) rest in
                        (g1 :: rest', e))) = S (List.length rest) /\
                forall k g,
                  nth_error (g0 :: rest) k = Some g ->
                  exists min_lr,
                    nth_error mins (i + k) = Some min_lr /\
                    nth_error
                      (fst (let (rest', e) :=
                              _reduce_weight_decay_loop factor eps mins (S i) rest in
                            (g1 :: rest', e))) k
                    = Some (reduced_weight_decay factor eps min_lr g)).
    { intros g1 Hg1.
      destruct (_reduce_weight_decay_loop factor eps mins (S i) rest) as [rest' e].
      simpl in *. split; [exact He|]. split; [now rewrite Hl|].
      intros [|k] g Hg; simpl in *.
      - injection Hg as <-. exists m. rewrite Nat.add_0_r. split; [exact Em|].
        now rewrite Hg1.
      - destruct (Hn k g Hg) as (mn & H1 & H2). exists mn.
        replace (i + S k)%nat with (S (i + k)) by lia. auto. }
    unfold reduced_weight_decay in Hcase.
    destruct (negb (Qeq_bool (weight_decay g0) 0)); apply Hcase; reflexivity.
Qed.

Lemma _reduce_weight_decay_attached s ep :
  attached s ->
  exists groups,
    _reduce_weight_decay s ep
    = Returns tt (set_optimizer {| param_groups := groups |} s) /\
    List.length groups = List.length (param_groups (optimizer s)) /\
    forall k g,
      nth_error (param_groups (optimizer s)) k = Some g ->
      exists min_lr,
        nth_error (min_lrs s) k = Some min_lr /\
        nth_error groups k = Some (reduced_weight_decay (factor s) (eps s) min_lr g).
Proof.
  intros Hatt. unfold _reduce_weight_decay.
  destruct (_reduce_weight_decay_loop_attached (factor s) (eps s) (min_lrs s)
              (param_groups (optimizer s)) 0 Hatt) as (He & Hl & Hn).
  destruct (_reduce_weight_decay_loop (factor s) (eps s) (min_lrs s) 0
              (param_groups (optimizer s))) as [groups e].
  simpl in *. subst e. exists groups. auto.
Qed.

Lemma reduced_weight_decay_spec factor eps min_lr g :
  let new_wd := Py.max (weight_decay g * factor)%Q min_lr in
  lr (reduced_weight_decay factor eps min_lr g) = lr g /\
  (~ (weight_decay g == 0)%Q -> (eps < weight_decay g - new_wd)%Q ->
   weight_decay (reduced_weight_decay factor eps min_lr g) = new_wd) /\
  ((weight_decay g == 0)%Q \/ (weight_decay g - new_wd <= eps)%Q ->
   reduced_weight_decay factor eps min_lr g = g).
Proof.
  unfold reduced_weight_decay. simpl.
  destruct (Qeq_bool (weight_decay g) 0) eqn:Ez; simpl.
  - apply Qeq_bool_iff in Ez. repeat split; auto. intros H. contradiction.
  - assert (Hz : ~ (weight_decay g == 0)%Q).
    { intros H. apply Qeq_bool_iff in H. congruence. }
    destruct (Qltb eps (weight_decay g - Py.max (weight_decay g * factor) min_lr)%Q)
      eqn:E; simpl.
    + apply Qltb_lt in E. repeat split; auto.
      intros [H|H]; [contradiction|]. exfalso. apply (Qlt_not_le _ _ E H).
    + apply Qltb_ge in E. repeat split; auto.
      intros _ H. exfalso. apply (Qlt_not_le _ _ H E).
Qed.

(** *** Claim C8 *)

(** C8, as stated, fails: on the example a reduction fires (the rate
    and the weight decay are both halved), and [step] hands back
    [None], not the boolean [True]. *)
Lemma lrwd_step_returns_none :
  step example_is_better example_reduce_lr example_state (Fin 1) None
  = Returns PyNone
      {| optimizer :=
           {| param_groups :=
                [ {| lr := (1 * (1 # 2))%Q; weight_decay := ((1 # 10) * (1 # 2))%Q |} ] |};
         factor := 1 # 2; min_lrs := [0%Q]; patience := 0; cooldown := 0;
         cooldown_counter := 0; best := Fin 1; num_bad_epochs := 0;
         eps := 1 # 100000000; last_epoch := 2 |}.
Proof. reflexivity. Qed.

(** C8, amended.  [ReduceLRWDOnPlateau.step] hands back [None],
    never a boolean.  It sets [last_epoch] to the epoch given (or
    advances it by one); when the inherited [is_better] says the metric
    is better than [best] it stores the metric in [best] and resets
    [num_bad_epochs] to 0, otherwise it adds one to [num_bad_epochs]; in
    cooldown it takes one from [cooldown_counter] and forgets the count.
    When the count stays within [patience] the call ends there, the
    parameter groups untouched.  Beyond it the call runs the inherited
    [_reduce_lr] on the object so far and then, when every group has its
    floor in [min_lrs], rewrites the weight decay of each group [k]: a
    weight decay that is not zero becomes
    [max(old_wd * factor, min_lrs[k])] when [old_wd - new_wd > eps],
    otherwise the group is left as [_reduce_lr] left it, and rates are
    not touched by this second pass; at the end [cooldown_counter] is
    [cooldown] and [num_bad_epochs] is 0. *)
Theorem lrwd_step_reduces_weight_decay :
  forall (is_better : pyfloat -> pyfloat -> bool)
         (_reduce_lr : t -> Z -> outcome t unit)
         (self : t) (metrics : pyfloat) (epoch : option Z),
    let ep := match epoch with Some e => e | None => last_epoch self + 1 end in
    let improved := is_better metrics (best self) in
    let in_cd := cooldown_counter self >? 0 in
    let bad :=
      if in_cd then 0
      else if improved then 0 else num_bad_epochs self + 1 in
    let counted :=
      {| optimizer := optimizer self; factor := factor self; min_lrs := min_lrs self;
         patience := patience self; cooldown := cooldown self;
         cooldown_counter :=
           if in_cd then cooldown_counter self - 1 else cooldown_counter self;
         best := if improved then metrics else best self;
         num_bad_epochs := bad; eps := eps self; last_epoch := ep |} in
    (forall r s',
        step is_better _reduce_lr self metrics epoch = Returns r s' -> r = PyNone) /\
    (bad <= patience self ->
     step is_better _reduce_lr self metrics epoch = Returns PyNone counted) /\
    (patience self < bad ->
     match _reduce_lr counted ep with
     | Raises e s1 => step is_better _reduce_lr self metrics epoch = Raises e s1
     | Returns _ s1 =>
       attached s1 ->
       exists groups,
         step is_better _reduce_lr self metrics epoch
         = Returns PyNone
             {| optimizer := {| param_groups := groups |}; factor := factor s1;
                min_lrs := min_lrs s1; patience := patience s1;
                cooldown := cooldown s1; cooldown_counter := cooldown s1;
                best := best s1; num_bad_epochs := 0; eps := eps s1;
                last_epoch := last_epoch s1 |} /\
         List.length groups = List.length (param_groups (optimizer s1)) /\
         forall k g,
           nth_error (param_groups (optimizer s1)) k = Some g ->
           exists min_lr g',
             nth_error (min_lrs s1) k = Some min_lr /\
             nth_error groups k = Some g' /\
             lr g' = lr g /\
             let new_wd := Py.max (weight_decay g * factor s1)%Q min_lr in
             (~ (weight_decay g == 0)%Q -> (eps s1 < weight_decay g - new_wd)%Q ->
              weight_decay g' = new_wd) /\
             ((weight_decay g == 0)%Q \/ (weight_decay g - new_wd <= eps s1)%Q ->
              g' = g)
     end).
Proof.
  intros is_better _reduce_lr self metrics epoch ep improved in_cd bad counted.
  assert (Hstep :
            (bad <= patience self /\
             step is_better _reduce_lr self metrics epoch = Returns PyNone counted) \/
            (patience self < bad /\
             step is_better _reduce_lr self metrics epoch
             = match _reduce_lr counted ep with
               | Raises e s1 => Raises e s1
               | Returns _ s1 =>
                 match _reduce_weight_decay s1 ep with
                 | Raises e s2 => Raises e s2
                 | Returns _ s2 =>
                   Returns PyNone
                     (set_num_bad_epochs 0 (set_cooldown_counter (cooldown s2) s2))
                 end
               end)).
  { subst counted bad in_cd improved ep. unfold step, in_cooldown.
    destruct self as [o f ml p c cc b nb e le].
    destruct epoch as [e0|]; simpl;
      destruct (is_better metrics b); simpl;
      destruct (cc >? 0); simpl;
      match goal with
      | |- context [(?x >? ?y)] =>
        rewrite (Z.gtb_ltb x y); destruct (Z.ltb_spec y x)
      end;
      first [ left; split; [assumption|reflexivity]
            | right; split; [assumption|reflexivity] ]. }
  split; [|split].
  - intros r s' H.
    destruct Hstep as [(_ & Hs)|(_ & Hs)]; rewrite Hs in H.
    + congruence.
    + destruct (_reduce_lr counted ep) as [u s1|e s1]; [|discriminate].
      destruct (_reduce_weight_decay s1 ep) as [u2 s2|e s2]; [|discriminate].
      congruence.
  - intros Hle. destruct Hstep as [(_ & H)|(Hlt & _)]; [exact H|lia].
  - intros Hlt.
    destruct Hstep as [(Hle & _)|(_ & Hs)]; [lia|].
    destruct (_reduce_lr counted ep) as [u s1|e s1]; [|exact Hs].
    intros Hatt.
    destruct (_reduce_weight_decay_attached s1 ep Hatt) as (groups & Hw & Hl & Hn).
    rewrite Hw in Hs. exists groups. split; [exact Hs|]. split; [exact Hl|].
    intros k g Hg. destruct (Hn k g Hg) as (mn & H1 & H2).
    exists mn, (reduced_weight_decay (factor s1) (eps s1) mn g).
    split; [exact H1|]. split; [exact H2|].
    apply reduced_weight_decay_spec.
Qed.

Lemma lrwd_step_reduces_weight_decay_witness :
  exists groups,
    step example_is_better example_reduce_lr example_state (Fin 1) None
    = Returns PyNone
        {| optimizer := {| param_groups := groups |}; factor := 1 # 2;
           min_lrs := [0%Q]; patience := 0; cooldown := 0; cooldown_counter := 0;
           best := Fin 1; num_bad_epochs := 0; eps := 1 # 100000000;
           last_epoch := 2 |} /\
    exists g',
      nth_error groups 0 = Some g' /\
      weight_decay g' = Py.max ((1 # 10) * (1 # 2))%Q 0%Q.
Proof.
  destruct (lrwd_step_reduces_weight_decay example_is_better example_reduce_lr
              example_state (Fin 1) None) as (_ & _ & Hfire).
  simpl in Hfire. destruct Hfire as (groups & Hs & _ & Hk).
  - lia.
  - unfold attached. simpl. lia.
  - exists groups. split; [exact Hs|].
    destruct (Hk 0%nat _ eq_refl) as (mn & g' & Hmn & Hg' & _ & Hwd & _).
    simpl in Hmn. injection Hmn as <-.
    exists g'. split; [exact Hg'|]. apply Hwd.
    + intros Hz. vm_compute in Hz. discriminate.
    + vm_compute. reflexivity.
Defined.

End ReduceLRWDOnPlateauFacts.

(** ** More on [AnnealOnPlateau] *)

Module AnnealOnPlateauMore.

Import AnnealOnPlateau AnnealOnPlateauRuns PyFacts AnnealOnPlateauFacts.
Local Open Scope Z_scope.

(** *** Comparisons of metrics *)

Lemma flt_not_feq a b : flt a b = true -> feq a b = false /\ feq b a = false.
Proof.
  destruct a as [| |x|], b as [| |y|]; simpl; try discriminate; auto.
  intros H. apply Qltb_lt in H. split.
  - destruct (Qeq_bool x y) eqn:E; [|reflexivity].
    apply Qeq_bool_iff in E. Lqa.lra.
  - destruct (Qeq_bool y x) eqn:E; [|reflexivity].
    apply Qeq_bool_iff in E. Lqa.lra.
Qed.

Lemma better_not_feq md a b : better md a b = true -> feq a b = false.
Proof.
  unfold better. intros H. apply orb_true_iff in H.
  destruct H as [H|H]; apply andb_true_iff in H; destruct H as [_ H];
    apply flt_not_feq in H; tauto.
Qed.

(** A strictly better primary metric decides the round: the tie-break
    is not consulted. *)
Lemma step_is_better_primary s m a :
  better (mode s) m (best s) = true -> step_is_better s m a = inr true.
Proof.
  intros H. pose proof (better_not_feq _ _ _ H) as Hne.
  unfold step_is_better. rewrite Hne. simpl.
  unfold better in H.
  destruct (mode s =? "min")%string, (mode s =? "max")%string; simpl in H;
    try rewrite andb_false_r in H; simpl in H;
    destruct (flt m (best s)), (flt (best s) m); simpl in H; try discriminate;
    destruct a; reflexivity.
Qed.

(** An improving round with a patience that is not negative. *)
Lemma step_improving_returns_false s m a :
  step_is_better s m a = inr true ->
  0 <= effective_patience s ->
  exists s',
    step s m a = Returns false s' /\ best s' = m /\ num_bad_epochs s' = 0 /\
    optimizer s' = optimizer s /\ mode s' = mode s /\
    effective_patience s' = effective_patience s.
Proof.
  intros H Hp. unfold step. rewrite step_is_better_last_epoch, H.
  unfold in_cooldown.
  destruct (truthy_opt a); simpl; destruct (cooldown_counter s >? 0); simpl;
    gtb_cases; eexists; (split; [reflexivity|]); simpl; auto.
Qed.

Lemma last_default {A} (l : list A) (d d' : A) : l <> [] -> last l d = last l d'.
Proof.
  induction l as [|x l IH]; intros H; [contradiction|].
  destruct l as [|y l]; [reflexivity|].
  change (last (y :: l) d = last (y :: l) d'). apply IH. discriminate.
Qed.

Lemma run_strictly_improving rounds :
  forall s,
    0 <= effective_patience s ->
    strictly_improving (mode s) (best s) rounds ->
    fst (run s rounds) = repeat (inr false) (List.length rounds) /\
    optimizer (snd (run s rounds)) = optimizer s /\
    best (snd (run s rounds)) = last (map fst rounds) (best s).
Proof.
  induction rounds as [|[m a] rest IH]; intros s Hp Himp.
  - simpl. auto.
  - destruct Himp as [Hb Hrest].
    destruct (step_improving_returns_false s m a (step_is_better_primary s m a Hb) Hp)
      as (s1 & Hs & Hbest & _ & Ho & Hm & He).
    rewrite run_cons, Hs.
    destruct (IH s1) as (H1 & H2 & H3).
    + lia.
    + rewrite Hm, Hbest. exact Hrest.
    + destruct (run s1 rest) as [rs s']. simpl in *.
      split; [now rewrite H1|]. split; [congruence|].
      rewrite H3, Hbest. destruct rest as [|r2 rest]; [reflexivity|].
      change (last (map fst (r2 :: rest)) m = last (map fst (r2 :: rest)) (best s)).
      apply last_default. discriminate.
Qed.

(** X1.  On metrics that improve strictly at every round no reduction
    ever fires: with a patience that is not negative every call returns
    [False], the parameter groups are untouched and [best] ends as the
    last metric. *)
Theorem strictly_improving_never_reduces :
  forall (s : t) (rounds : list (pyfloat * option pyfloat)),
    0 <= effective_patience s ->
    strictly_improving (mode s) (best s) rounds ->
    fst (run s rounds) = repeat (inr false) (List.length rounds) /\
    optimizer (snd (run s rounds)) = optimizer s /\
    best (snd (run s rounds)) = last (map fst rounds) (best s).
Proof.
  intros s rounds Hp H. apply run_strictly_improving; assumption.
Qed.

Lemma strictly_improving_never_reduces_witness :
  fst (run scenario_best_set [(Fin (1 # 2), None); (Fin (1 # 4), Some (Fin 0))])
  = [inr false; inr false] /\
  optimizer (snd (run scenario_best_set
                    [(Fin (1 # 2), None); (Fin (1 # 4), Some (Fin 0))]))
  = one_group 1 /\
  best (snd (run scenario_best_set
               [(Fin (1 # 2), None); (Fin (1 # 4), Some (Fin 0))]))
  = Fin (1 # 4).
Proof.
  apply (strictly_improving_never_reduces scenario_best_set
           [(Fin (1 # 2), None); (Fin (1 # 4), Some (Fin 0))]).
  - simpl. lia.
  - simpl. repeat split; reflexivity.
Defined.

(** X2.  An auxiliary metric that is zero is taken for an absent one:
    [step(m, 0.0)] does exactly what [step(m)] does, result and
    attributes alike, even where a non-zero value would have won or lost
    the tie-break or raised. *)
Theorem zero_auxiliary_metric_is_absent :
  forall (s : t) (m : pyfloat) (q : Q),
    (q == 0)%Q ->
    step s m (Some (Fin q)) = step s m None.
Proof.
  intros s m q Hq. apply Qeq_bool_iff in Hq.
  unfold step, step_is_better. simpl. rewrite Hq. simpl.
  rewrite andb_false_r. reflexivity.
Qed.

Lemma zero_auxiliary_metric_is_absent_witness :
  step in_cooldown_state (Fin 1) (Some (Fin (0 # 5))) = step in_cooldown_state (Fin 1) None.
Proof.
  apply (zero_auxiliary_metric_is_absent in_cooldown_state (Fin 1) (0 # 5)).
  reflexivity.
Defined.

(** A round without improvement returns when every group has its
    floor, and leaves [best] and [best_aux] alone. *)
Lemma step_not_improving s m a :
  step_is_better s m a = inr false ->
  attached s ->
  exists r s',
    step s m a = Returns r s' /\ best s' = best s /\ best_aux s' = best_aux s.
Proof.
  intros H Hatt. unfold step. rewrite step_is_better_last_epoch, H.
  unfold in_cooldown. simpl.
  destruct (cooldown_counter s >? 0); simpl;
    match goal with
    | |- context [(?x >? ?y)] => destruct (x >? y)
    end;
    try (do 2 eexists; split; [reflexivity|]; simpl; auto);
    match goal with
    | |- context [_reduce_lr ?st ?ep] =>
      destruct (_reduce_lr_attached st ep Hatt) as (groups & -> & _)
    end;
    do 2 eexists; (split; [reflexivity|]); simpl; auto.
Qed.

Lemma step_is_better_nan s a : step_is_better s NaN a = inr false.
Proof.
  unfold step_is_better. simpl.
  destruct (mode s =? "min")%string, (mode s =? "max")%string;
    destruct (best s); simpl; destruct a; reflexivity.
Qed.

(** X3.  A NaN metric is never an improvement and never a tie: whatever
    the mode, [best] and the auxiliary metric, the round counts as a bad
    one, the tie-break cannot raise, and the call returns with [best]
    and [best_aux] as they were. *)
Theorem nan_metric_is_a_bad_round :
  forall (s : t) (a : option pyfloat),
    attached s ->
    step_is_better s NaN a = inr false /\
    exists r s',
      step s NaN a = Returns r s' /\ best s' = best s /\ best_aux s' = best_aux s.
Proof.
  intros s a Hatt. split; [apply step_is_better_nan|].
  apply step_not_improving; [apply step_is_better_nan|exact Hatt].
Qed.

Lemma nan_metric_is_a_bad_round_witness :
  step_is_better two_groups NaN (Some (Fin 7)) = inr false /\
  exists r s',
    step two_groups NaN (Some (Fin 7)) = Returns r s' /\
    best s' = Fin 1 /\ best_aux s' = None.
Proof.
  apply (nan_metric_is_a_bad_round two_groups (Some (Fin 7))).
  unfold attached. simpl. lia.
Defined.

(** *** When a reduction fires *)

Lemma step_returns_true_inv s m a s' :
  0 <= effective_patience s ->
  step s m a = Returns true s' ->
  cooldown_counter s <= 0 /\ step_is_better s m a = inr false /\
  effective_patience s <= num_bad_epochs s.
Proof.
  intros Hp. unfold step. rewrite step_is_better_last_epoch.
  destruct (step_is_better s m a) as [e|b]; [discriminate|].
  unfold in_cooldown.
  destruct b; [destruct (truthy_opt a)|]; simpl;
    destruct (Z.gtb_spec (cooldown_counter s) 0); simpl;
    match goal with
    | |- context [(?x >? ?y)] => destruct (Z.gtb_spec x y)
    end; simpl; try discriminate; try lia;
    intros _; repeat split; lia.
Qed.

(** X4.  On an object whose effective patience is not negative and
    whose groups all have a floor, [step] returns [True] exactly when the
    object is not in cooldown, the round is not an improvement, and the
    bad rounds counted so far have reached the effective patience. *)
Theorem reduction_fires_iff :
  forall (s : t) (m : pyfloat) (a : option pyfloat),
    0 <= effective_patience s ->
    attached s ->
    ((exists s', step s m a = Returns true s') <->
     (cooldown_counter s <= 0 /\ step_is_better s m a = inr false /\
      effective_patience s <= num_bad_epochs s)).
Proof.
  intros s m a Hp Hatt. split.
  - intros [s' H]. eapply step_returns_true_inv; eassumption.
  - intros (Hc & Hb & Hn).
    destruct (step_fires s m a Hb Hc) as (s' & Hs & _); [lia|exact Hatt|].
    exists s'. exact Hs.
Qed.

Lemma reduction_fires_iff_witness :
  (exists s', step two_groups (Fin 1) None = Returns true s') <->
  (cooldown_counter two_groups <= 0 /\
   step_is_better two_groups (Fin 1) None = inr false /\
   effective_patience two_groups <= num_bad_epochs two_groups).
Proof.
  apply (reduction_fires_iff two_groups (Fin 1) None).
  - simpl. lia.
  - unfold attached. simpl. lia.
Defined.

(** *** When [step] raises *)

Lemma step_is_better_raises_iff s m a :
  (exists e, step_is_better s m a = inl e) <->
  (exists x,
      a = Some x /\ feq m (best s) = true /\ truthy x = true /\
      best_aux s = None /\
      (aux_mode s = "min"%string \/ aux_mode s = "max"%string)).
Proof.
  unfold step_is_better. split.
  - intros [e H]. destruct a as [x|]; [|discriminate]. exists x.
    destruct (feq m (best s)); [|discriminate].
    destruct (truthy x); [|discriminate]. simpl in H.
    destruct (best_aux s) as [ba|].
    + destruct (aux_mode s =? "min")%string, (aux_mode s =? "max")%string; discriminate.
    + destruct (aux_mode s =? "min")%string eqn:E1.
      * apply String.eqb_eq in E1. auto 6.
      * destruct (aux_mode s =? "max")%string eqn:E2; [|discriminate].
        apply String.eqb_eq in E2. auto 6.
  - intros (x & -> & Hm & Ht & Hb & Hmode). rewrite Hm, Ht, Hb. simpl.
    destruct Hmode as [-> | ->]; simpl; eexists; reflexivity.
Qed.

Lemma step_is_better_raises_TypeError s m a e :
  step_is_better s m a = inl e -> e = TypeError.
Proof.
  unfold step_is_better. destruct a as [x|]; [|discriminate].
  destruct (feq m (best s) && truthy x); [|discriminate].
  unfold lt_opt, gt_opt.
  destruct (best_aux s); simpl.
  - destruct (aux_mode s =? "min")%string, (aux_mode s =? "max")%string; discriminate.
  - destruct (aux_mode s =? "min")%string, (aux_mode s =? "max")%string;
      simpl; congruence.
Qed.

(** With a floor for every group a call returns unless the tie-break
    raised. *)
Lemma step_attached_outcome s m a :
  attached s ->
  match step_is_better s m a with
  | inl e => step s m a = Raises e (set_last_epoch (last_epoch s + 1) s)
  | inr _ => exists r s', step s m a = Returns r s'
  end.
Proof.
  intros Hatt. destruct (step_is_better s m a) as [e|[|]] eqn:E.
  - apply step_raises. exact E.
  - destruct (step_improving s m a E Hatt) as (r & s' & H & _). eauto.
  - destruct (step_not_improving s m a E Hatt) as (r & s' & H & _). eauto.
Qed.

(** X5.  On an object whose groups all have a floor, [step] raises in
    exactly one situation: a truthy auxiliary metric is supplied, the
    primary metric is equal to [best], [best_aux] is still [None] and
    [aux_mode] is ["min"] or ["max"].  The exception is then a
    [TypeError], and the call has advanced [last_epoch] and nothing
    else. *)
Theorem step_raises_iff :
  forall (s : t) (m : pyfloat) (a : option pyfloat),
    attached s ->
    ((exists e s', step s m a = Raises e s') <->
     (exists x,
         a = Some x /\ feq m (best s) = true /\ truthy x = true /\
         best_aux s = None /\
         (aux_mode s = "min"%string \/ aux_mode s = "max"%string))) /\
    (forall e s',
        step s m a = Raises e s' ->
        e = TypeError /\ s' = set_last_epoch (last_epoch s + 1) s).
Proof.
  intros s m a Hatt. pose proof (step_attached_outcome s m a Hatt) as Ho.
  split.
  - rewrite <- step_is_better_raises_iff. split.
    + intros (e & s' & H).
      destruct (step_is_better s m a) as [e'|b]; [eauto|].
      destruct Ho as (r & s1 & Hr). congruence.
    + intros [e H]. rewrite H in Ho. eauto.
  - intros e s' H.
    destruct (step_is_better s m a) as [e'|b] eqn:E.
    + rewrite Ho in H. injection H as <- <-.
      split; [|reflexivity]. eapply step_is_better_raises_TypeError. exact E.
    + destruct Ho as (r & s1 & Hr). congruence.
Qed.

Lemma step_raises_iff_witness :
  exists e s', step scenario_best_set (Fin 1) (Some (Fin 3)) = Raises e s'.
Proof.
  destruct (step_raises_iff scenario_best_set (Fin 1) (Some (Fin 3))) as [[_ H] _].
  - unfold attached. simpl. lia.
  - apply H. exists (Fin 3). repeat split; auto.
Defined.

Lemma run_returns_without_aux rounds :
  forall s,
    invariant s ->
    Forall (fun r => truthy_opt (snd r) = false) rounds ->
    Forall returned (fst (run s rounds)).
Proof.
  induction rounds as [|[m a] rest IH]; intros s Hinv Hno.
  - constructor.
  - inversion Hno as [|? ? Ha Hrest]; subst. simpl in Ha.
    rewrite run_cons. pose proof (step_invariant s m a Hinv) as Hs.
    destruct Hinv as (Hatt & _).
    pose proof (step_attached_outcome s m a Hatt) as Ho.
    assert (Hb : exists b, step_is_better s m a = inr b).
    { unfold step_is_better. destruct a as [x|].
      - simpl in Ha. rewrite Ha, andb_false_r. eauto.
      - eauto. }
    destruct Hb as [b Hb]. rewrite Hb in Ho. destruct Ho as (r & s1 & Hr).
    rewrite Hr in *. simpl in Hs. specialize (IH s1 Hs Hrest).
    destruct (run s1 rest) as [rs s']. simpl in *. constructor; [exact I|exact IH].
Qed.

(** X6.  A scheduler built by [__init__] and only ever called without
    an auxiliary metric (or with one that is zero) never raises: every
    call of [step] returns, however many rounds are run. *)
Theorem no_auxiliary_metric_never_raises :
  forall o md am f p x v c ml e c0 rounds,
    __init__ o md am f p x v c ml e = inr c0 ->
    Forall (fun r => truthy_opt (snd r) = false) rounds ->
    Forall returned (fst (run c0 rounds)).
Proof.
  intros o md am f p x v c ml e c0 rounds H Hno.
  apply run_returns_without_aux; [|exact Hno].
  eapply __init___invariant. exact H.
Qed.

Lemma no_auxiliary_metric_never_raises_witness :
  Forall returned
    (fst (run {| factor := 1 # 2; optimizer := one_group 1; min_lrs := [0%Q];
                 default_patience := 0; effective_patience := 0; verbose := false;
                 cooldown := 0; cooldown_counter := 0; mode := "max";
                 aux_mode := "min"; best := NInf; best_aux := None;
                 num_bad_epochs := 0; mode_worse := NInf; eps := 0; last_epoch := 0;
                 _last_lr := None |}
              [(Fin 1, None); (Fin 1, Some (Fin 0)); (NaN, None)])).
Proof.
  apply (no_auxiliary_metric_never_raises (OptimizerObj (one_group 1)) "max" "min"
           (1 # 2) 0 0 false 0 (MinLrScalar 0) 0 _
           [(Fin 1, None); (Fin 1, Some (Fin 0)); (NaN, None)] eq_refl).
  repeat constructor.
Defined.

(** *** Invariants of the counters and of [best] *)

Lemma step_counters_bounded s m a :
  attached s -> counters_bounded s -> counters_bounded (state_of (step s m a)).
Proof.
  intros Hatt (Hd & Hn & Hc). unfold counters_bounded.
  unfold step. rewrite step_is_better_last_epoch.
  destruct (step_is_better s m a) as [e|b]; [simpl; auto|].
  unfold in_cooldown.
  destruct b; [destruct (truthy_opt a)|]; simpl;
    destruct (Z.gtb_spec (cooldown_counter s) 0); simpl;
    match goal with
    | |- context [(?x >? ?y)] => destruct (Z.gtb_spec x y)
    end; simpl;
    try (repeat split; lia);
    match goal with
    | |- context [_reduce_lr ?st ?ep] =>
      destruct (_reduce_lr_attached st ep Hatt) as (groups & -> & _)
    end; simpl; repeat split; lia.
Qed.

Lemma run_counters_bounded rounds :
  forall s,
    invariant s -> counters_bounded s -> counters_bounded (snd (run s rounds)).
Proof.
  induction rounds as [|[m a] rest IH]; intros s Hinv Hb; [exact Hb|].
  rewrite run_cons.
  pose proof (step_invariant s m a Hinv) as Hs.
  pose proof (step_counters_bounded s m a (proj1 Hinv) Hb) as Hb'.
  destruct (step s m a) as [r s1|e s1]; simpl in *;
    specialize (IH s1 Hs Hb'); destruct (run s1 rest); exact IH.
Qed.

(** X7.  On a scheduler built with a patience, an initial extra
    patience and a cooldown that are not negative, the counters stay
    within their bounds between calls, whatever the rounds:
    [0 <= num_bad_epochs <= effective_patience] and
    [0 <= cooldown_counter <= cooldown]. *)
Theorem counters_stay_bounded :
  forall o md am f p x v c ml e c0 rounds,
    __init__ o md am f p x v c ml e = inr c0 ->
    0 <= p -> 0 <= x -> 0 <= c ->
    0 <= num_bad_epochs (snd (run c0 rounds))
      <= effective_patience (snd (run c0 rounds)) /\
    0 <= cooldown_counter (snd (run c0 rounds)) <= c.
Proof.
  intros o md am f p x v c ml e c0 rounds H Hp Hx Hc.
  pose proof (__init___invariant _ _ _ _ _ _ _ _ _ _ _ H) as Hinv.
  destruct (__init___inr _ _ _ _ _ _ _ _ _ _ _ H) as (opt & _ & _ & _ & _ & _ & Hc0).
  assert (Hb : counters_bounded c0).
  { rewrite Hc0. unfold counters_bounded. simpl. lia. }
  destruct (run_counters_bounded rounds c0 Hinv Hb) as (_ & Hn & Hcc).
  split; [exact Hn|].
  assert (Hcd : cooldown (snd (run c0 rounds)) = c).
  { assert (Hgen : forall rs s, cooldown (snd (run s rs)) = cooldown s).
    { induction rs as [|[m a] rest IH]; intros s; [reflexivity|].
      rewrite run_cons. pose proof (step_outcome s m a) as Ho.
      destruct (step s m a) as [[|] s1|ex s1];
        specialize (IH s1); destruct (run s1 rest); simpl in *;
        rewrite IH; tauto. }
    rewrite Hgen, Hc0. reflexivity. }
  rewrite Hcd in Hcc. exact Hcc.
Qed.

Lemma counters_stay_bounded_witness :
  0 <= num_bad_epochs
         (snd (run {| factor := 1 # 2; optimizer := one_group 1; min_lrs := [0%Q];
                      default_patience := 1; effective_patience := 2;
                      verbose := false; cooldown := 1; cooldown_counter := 0;
                      mode := "min"; aux_mode := "min"; best := PInf;
                      best_aux := None; num_bad_epochs := 0; mode_worse := PInf;
                      eps := 0; last_epoch := 0; _last_lr := None |}
                   [(Fin 1, None); (Fin 2, None); (Fin 2, None); (Fin 2, None)]))
    <= effective_patience
         (snd (run {| factor := 1 # 2; optimizer := one_group 1; min_lrs := [0%Q];
                      default_patience := 1; effective_patience := 2;
                      verbose := false; cooldown := 1; cooldown_counter := 0;
                      mode := "min"; aux_mode := "min"; best := PInf;
                      best_aux := None; num_bad_epochs := 0; mode_worse := PInf;
                      eps := 0; last_epoch := 0; _last_lr := None |}
                   [(Fin 1, None); (Fin 2, None); (Fin 2, None); (Fin 2, None)])).
Proof.
  apply (counters_stay_bounded (OptimizerObj (one_group 1)) "min" "min"
           (1 # 2) 1 1 false 1 (MinLrScalar 0) 0 _
           [(Fin 1, None); (Fin 2, None); (Fin 2, None); (Fin 2, None)] eq_refl);
    lia.
Defined.

Lemma feq_trans a b c : feq a b = true -> feq b c = true -> feq a c = true.
Proof.
  destruct a, b, c; simpl; try discriminate; auto. apply Qeq_bool_trans.
Qed.

Lemma flt_trans a b c : flt a b = true -> flt b c = true -> flt a c = true.
Proof.
  destruct a as [| |x|], b as [| |y|], c as [| |z|]; simpl; try discriminate; auto.
  intros H1 H2. apply Qltb_lt in H1. apply Qltb_lt in H2. apply Qltb_lt. Lqa.lra.
Qed.

Lemma flt_feq_l a b c : feq a b = true -> flt b c = true -> flt a c = true.
Proof.
  destruct a as [| |x|], b as [| |y|], c as [| |z|]; simpl; try discriminate; auto.
  intros H1 H2. apply Qeq_bool_iff in H1. apply Qltb_lt in H2. apply Qltb_lt. Lqa.lra.
Qed.

Lemma flt_feq_r a b c : flt a b = true -> feq b c = true -> flt a c = true.
Proof.
  destruct a as [| |x|], b as [| |y|], c as [| |z|]; simpl; try discriminate; auto.
  intros H1 H2. apply Qltb_lt in H1. apply Qeq_bool_iff in H2. apply Qltb_lt. Lqa.lra.
Qed.

Lemma feq_sym a b : feq a b = true -> feq b a = true.
Proof.
  destruct a, b; simpl; try discriminate; auto. apply Qeq_bool_sym.
Qed.

Lemma better_cases md a b :
  better md a b = true ->
  (md = "min"%string /\ flt a b = true) \/ (md = "max"%string /\ flt b a = true).
Proof.
  unfold better. intros H. apply orb_true_iff in H.
  destruct H as [H|H]; apply andb_true_iff in H; destruct H as [Hm H];
    apply String.eqb_eq in Hm; auto.
Qed.

Lemma better_intro_min a b : flt a b = true -> better "min" a b = true.
Proof. intros H. unfold better. simpl. rewrite H. reflexivity. Qed.

Lemma better_intro_max a b : flt b a = true -> better "max" a b = true.
Proof. intros H. unfold better. simpl. rewrite H. reflexivity. Qed.

Lemma not_worse_trans md a b c :
  not_worse md a b -> not_worse md b c -> not_worse md a c.
Proof.
  unfold not_worse.
  intros [->|[H1|H1]] [->|[H2|H2]]; auto.
  - right. left. eapply feq_trans; eassumption.
  - right. right. destruct (better_cases _ _ _ H2) as [[-> H]|[-> H]].
    + apply better_intro_min. eapply flt_feq_l; eassumption.
    + apply better_intro_max. eapply flt_feq_r; [eassumption|]. apply feq_sym. exact H1.
  - right. right. destruct (better_cases _ _ _ H1) as [[-> H]|[-> H]].
    + apply better_intro_min. eapply flt_feq_r; eassumption.
    + apply better_intro_max. eapply flt_feq_l; [|eassumption]. apply feq_sym. exact H2.
  - right. right. destruct (better_cases _ _ _ H1) as [[-> H]|[-> H]];
      destruct (better_cases _ _ _ H2) as [[E H']|[E H']]; try discriminate.
    + apply better_intro_min. eapply flt_trans; eassumption.
    + apply better_intro_max. eapply flt_trans; eassumption.
Qed.

(** Where [is_better] comes out [True], the metric is strictly better
    than [best] or equal to it. *)
Lemma step_is_better_true s m a :
  step_is_better s m a = inr true ->
  better (mode s) m (best s) = true \/ feq m (best s) = true.
Proof.
  unfold step_is_better, better.
  destruct (mode s =? "min")%string, (mode s =? "max")%string; simpl;
    destruct (flt m (best s)), (flt (best s) m); simpl; auto;
    destruct a as [x|]; try discriminate;
    destruct (feq m (best s)); simpl; auto; discriminate.
Qed.

Lemma step_best s m a :
  mode (state_of (step s m a)) = mode s /\
  not_worse (mode s) (best (state_of (step s m a))) (best s).
Proof.
  unfold step. rewrite step_is_better_last_epoch.
  destruct (step_is_better s m a) as [e|b] eqn:E.
  { simpl. split; [reflexivity|]. left. reflexivity. }
  assert (Hnw : b = true -> not_worse (mode s) m (best s)).
  { intros ->. apply step_is_better_true in E. unfold not_worse. tauto. }
  unfold in_cooldown.
  destruct b; [destruct (truthy_opt a)|]; simpl;
    destruct (cooldown_counter s >? 0); simpl;
    match goal with
    | |- context [(?x >? ?y)] => destruct (x >? y)
    end; simpl;
    try (split; [reflexivity|]; first [apply Hnw; reflexivity | left; reflexivity]);
    unfold _reduce_lr; simpl;
    match goal with
    | |- context [_reduce_lr_loop ?f ?e ?l ?i ?g] =>
      destruct (_reduce_lr_loop f e l i g) as [groups [ex|]]
    end; simpl;
    (split; [reflexivity|]); first [apply Hnw; reflexivity | left; reflexivity].
Qed.

(** X8.  [best] never gets worse: after any sequence of calls, raising
    or not, it is the value it was, a number equal to it, or a strictly
    better one under the mode. *)
Theorem best_never_gets_worse :
  forall (s : t) (rounds : list (pyfloat * option pyfloat)),
    not_worse (mode s) (best (snd (run s rounds))) (best s).
Proof.
  intros s rounds. revert s.
  induction rounds as [|[m a] rest IH]; intros s.
  - left. reflexivity.
  - rewrite run_cons. destruct (step_best s m a) as [Hm Hb].
    destruct (step s m a) as [r s1|e s1]; simpl in *;
      specialize (IH s1); destruct (run s1 rest) as [rs s']; simpl in *;
      rewrite Hm in IH; eapply not_worse_trans; eassumption.
Qed.

(** *** Rates and floors *)

(** X9.  A reduction never takes a rate below its floor: a group whose
    rate is at or above [min_lrs[k]] before a call of [step] is still at
    or above it after the call, whatever the factor and [eps]. *)
Theorem rate_stays_above_floor :
  forall (s : t) (m : pyfloat) (a : option pyfloat) (k : nat)
         (g g' : param_group) (min_lr : Q),
    nth_error (param_groups (optimizer s)) k = Some g ->
    nth_error (param_groups (optimizer (state_of (step s m a)))) k = Some g' ->
    nth_error (min_lrs s) k = Some min_lr ->
    (min_lr <= lr g)%Q ->
    (min_lr <= lr g')%Q.
Proof.
  intros s m a k g g' mn Hg Hg' Hmn Hle.
  destruct (step_groups s m a) as [Heq|Heq]; rewrite Heq in Hg'.
  - assert (g' = g) as -> by congruence. exact Hle.
  - destruct (_reduce_lr_loop_nth _ _ _ _ _ _ _ _ Hg Hg') as [->|(mn' & Hm' & _ & ->)].
    + exact Hle.
    + simpl in Hm'. assert (mn' = mn) as -> by congruence.
      simpl. apply max_ge_r.
Qed.

Lemma rate_stays_above_floor_witness :
  match nth_error (param_groups (optimizer (state_of (step two_groups (Fin 1) None)))) 0 with
  | Some g' => (3 # 10 <= lr g')%Q
  | None => False
  end.
Proof.
  destruct (nth_error (param_groups (optimizer (state_of (step two_groups (Fin 1) None)))) 0)
    as [g'|] eqn:E.
  - apply (rate_stays_above_floor two_groups (Fin 1) None 0
             {| lr := 1; weight_decay := 0 |} g' (3 # 10) eq_refl E eq_refl).
    simpl. Lqa.lra.
  - vm_compute in E. discriminate.
Defined.

(** *** Bookkeeping *)

Lemma step_last_epoch s m a :
  last_epoch (state_of (step s m a)) = last_epoch s + 1.
Proof.
  unfold step. rewrite step_is_better_last_epoch.
  destruct (step_is_better s m a) as [e|b]; [reflexivity|].
  unfold in_cooldown.
  destruct b; [destruct (truthy_opt a)|]; simpl;
    destruct (cooldown_counter s >? 0); simpl;
    match goal with
    | |- context [(?x >? ?y)] => destruct (x >? y)
    end; simpl; auto;
    unfold _reduce_lr; simpl;
    match goal with
    | |- context [_reduce_lr_loop ?f ?e ?l ?i ?g] =>
      destruct (_reduce_lr_loop f e l i g) as [groups [ex|]]
    end; simpl; auto.
Qed.

Lemma step_returns_last_lr s m a r s' :
  step s m a = Returns r s' ->
  _last_lr s' = Some (map lr (param_groups (optimizer s'))).
Proof.
  unfold step. rewrite step_is_better_last_epoch.
  destruct (step_is_better s m a) as [e|b]; [discriminate|].
  unfold in_cooldown.
  destruct b; [destruct (truthy_opt a)|]; simpl;
    destruct (cooldown_counter s >? 0); simpl;
    match goal with
    | |- context [(?x >? ?y)] => destruct (x >? y)
    end; simpl;
    try (intros H; injection H as _ <-; reflexivity);
    unfold _reduce_lr; simpl;
    match goal with
    | |- context [_reduce_lr_loop ?f ?e ?l ?i ?g] =>
      destruct (_reduce_lr_loop f e l i g) as [groups [ex|]]
    end; simpl; try discriminate;
    intros H; injection H as _ <-; reflexivity.
Qed.

Lemma run_length rounds :
  forall s, List.length (fst (run s rounds)) = List.length rounds.
Proof.
  induction rounds as [|[m a] rest IH]; intros s; [reflexivity|].
  rewrite run_cons.
  destruct (step s m a) as [r s1|e s1];
    specialize (IH s1); destruct (run s1 rest); simpl in *; now rewrite IH.
Qed.

(** [last_epoch] counts the calls of [step], those that raised
    included: after [n] calls it has grown by [n].  And whenever the last
    call of a run returned, [_last_lr] holds the rates the groups have
    at that moment. *)
Lemma last_epoch_counts_calls :
  forall (s : t) (rounds : list (pyfloat * option pyfloat)),
    last_epoch (snd (run s rounds)) = last_epoch s + Z.of_nat (List.length rounds) /\
    (forall b rs,
        fst (run s rounds) = rs ++ [inr b] ->
        _last_lr (snd (run s rounds))
        = Some (map lr (param_groups (optimizer (snd (run s rounds)))))).
Proof.
  intros s rounds. revert s.
  induction rounds as [|[m a] rest IH]; intros s.
  - simpl. split; [lia|]. intros b rs H. destruct rs; discriminate.
  - rewrite run_cons.
    pose proof (step_last_epoch s m a) as Hl.
    pose proof (step_returns_last_lr s m a) as Hr.
    destruct (step s m a) as [r s1|e s1]; simpl in Hl;
      destruct (IH s1) as [IH1 IH2];
      destruct rest as [|r2 rest].
    + simpl in *. split; [lia|]. intros b rs _. eapply Hr. reflexivity.
    + destruct (run s1 (r2 :: rest)) as [rs1 s'] eqn:Erun.
      simpl fst in *. simpl snd in *. split.
      * rewrite IH1. simpl List.length. lia.
      * intros b rs H. destruct rs as [|x rs].
        -- simpl in H. injection H as _ H.
           pose proof (run_length (r2 :: rest) s1) as Hlen.
           rewrite Erun in Hlen. simpl in Hlen.
           rewrite H in Hlen. discriminate.
        -- simpl in H. injection H as _ H. eapply IH2. exact H.
    + simpl in *. split; [lia|]. intros b rs H.
      destruct rs as [|y rs]; [discriminate|]. simpl in H. injection H as _ H.
      destruct rs; discriminate.
    + destruct (run s1 (r2 :: rest)) as [rs1 s'] eqn:Erun.
      simpl fst in *. simpl snd in *. split.
      * rewrite IH1. simpl List.length. lia.
      * intros b rs H. destruct rs as [|x rs].
        -- simpl in H. discriminate.
        -- simpl in H. injection H as _ H. eapply IH2. exact H.
Qed.

(** *** A freshly built scheduler *)

(** X10.  [__init__] gives every parameter group exactly one floor: a
    scalar [min_lr] is the floor of each group, a list is taken as it
    is; the optimizer's groups are not touched by the construction. *)
Theorem init_one_floor_per_group :
  forall o md am f p x v c ml e c0,
    __init__ o md am f p x v c ml e = inr c0 ->
    o = OptimizerObj (optimizer c0) /\
    List.length (min_lrs c0) = List.length (param_groups (optimizer c0)) /\
    match ml with
    | MinLrScalar q =>
      forall k, (k < List.length (param_groups (optimizer c0)))%nat ->
                nth_error (min_lrs c0) k = Some q
    | MinLrList l => min_lrs c0 = l
    end.
Proof.
  intros o md am f p x v c ml e c0 H.
  destruct (__init___inr _ _ _ _ _ _ _ _ _ _ _ H) as (opt & Ho & _ & _ & Hlen & Hml & Hc).
  assert (Hopt : optimizer c0 = opt) by (rewrite Hc; reflexivity).
  rewrite Hopt. split; [exact Ho|]. split; [exact Hlen|].
  destruct ml as [q|l]; [|exact Hml].
  intros k Hk. rewrite Hml. clear - Hk.
  revert k Hk. induction (List.length (param_groups opt)) as [|n IH]; intros k Hk; [lia|].
  destruct k as [|k]; [reflexivity|]. simpl. apply IH. lia.
Qed.

Lemma init_one_floor_per_group_witness :
  match built_two_groups with
  | inr c0 => nth_error (min_lrs c0) 1 = Some (3 # 10)%Q
  | inl _ => False
  end.
Proof.
  unfold built_two_groups. simpl.
  destruct (init_one_floor_per_group
              (OptimizerObj (optimizer two_groups)) "min" "min" (1 # 2) 0 0 false 0
              (MinLrScalar (3 # 10)) 0 _ eq_refl) as (_ & _ & H).
  apply (H 1%nat). simpl. lia.
Defined.

(** X11.  The first finite metric a freshly built scheduler sees is
    always an improvement, in either mode: with an effective patience
    that is not negative the call returns [False], [best] becomes that
    metric, [best_aux] becomes the auxiliary metric when one that is not
    zero was supplied, and the rates are not touched. *)
Theorem first_finite_metric_becomes_best :
  forall o md am f p x v c ml e c0 (q : Q) (a : option pyfloat),
    __init__ o md am f p x v c ml e = inr c0 ->
    0 <= p + x ->
    exists s',
      step c0 (Fin q) a = Returns false s' /\
      best s' = Fin q /\
      best_aux s' = (if truthy_opt a then a else None) /\
      optimizer s' = optimizer c0.
Proof.
  intros o md am f p x v c ml e c0 q a H Hp.
  destruct (__init___inr _ _ _ _ _ _ _ _ _ _ _ H) as (opt & _ & _ & Hmd & _ & _ & Hc).
  assert (Hb : step_is_better c0 (Fin q) a = inr true).
  { apply step_is_better_primary. rewrite Hc. simpl.
    destruct Hmd as [-> | ->]; reflexivity. }
  assert (He : effective_patience c0 = p + x) by (rewrite Hc; reflexivity).
  assert (Hcc : cooldown_counter c0 = 0) by (rewrite Hc; reflexivity).
  assert (Hba : best_aux c0 = None) by (rewrite Hc; reflexivity).
  unfold step. rewrite step_is_better_last_epoch, Hb. unfold in_cooldown.
  destruct (truthy_opt a); simpl; rewrite Hcc; simpl; rewrite He;
    gtb_cases; eexists; (split; [reflexivity|]); simpl; auto.
Qed.

Lemma first_finite_metric_becomes_best_witness :
  exists s',
    step {| factor := 1 # 2; optimizer := one_group 1; min_lrs := [0%Q];
            default_patience := 0; effective_patience := 0; verbose := false;
            cooldown := 0; cooldown_counter := 0; mode := "max"; aux_mode := "min";
            best := NInf; best_aux := None; num_bad_epochs := 0; mode_worse := NInf;
            eps := 0; last_epoch := 0; _last_lr := None |}
         (Fin (- 5)) (Some (Fin 2))
    = Returns false s' /\
    best s' = Fin (- 5) /\ best_aux s' = Some (Fin 2) /\ optimizer s' = one_group 1.
Proof.
  apply (first_finite_metric_becomes_best (OptimizerObj (one_group 1)) "max" "min"
           (1 # 2) 0 0 false 0 (MinLrScalar 0) 0 _ (- 5) (Some (Fin 2)) eq_refl).
  lia.
Defined.

End AnnealOnPlateauMore.

(** ** More on [ReduceLRWDOnPlateau._reduce_weight_decay] *)

Module ReduceLRWDOnPlateauMore.

Import ReduceLRWDOnPlateau ReduceLRWDOnPlateauExamples PyFacts ReduceLRWDOnPlateauFacts.
Local Open Scope Z_scope.

Lemma _reduce_weight_decay_loop_length factor eps mins groups :
  forall i,
    List.length (fst (_reduce_weight_decay_loop factor eps mins i groups))
    = List.length groups.
Proof.
  induction groups as [|g rest IH]; intros i; simpl; [reflexivity|].
  specialize (IH (S i)).
  destruct (negb (Qeq_bool (weight_decay g) 0)).
  - destruct (nth_error mins i) as [m|]; [|reflexivity].
    destruct (_reduce_weight_decay_loop factor eps mins (S i) rest) as [rest' e].
    simpl in *. now rewrite IH.
  - destruct (_reduce_weight_decay_loop factor eps mins (S i) rest) as [rest' e].
    simpl in *. now rewrite IH.
Qed.

(** Whatever happens, a group is left as it was or has its weight
    decay rewritten by the guarded assignment. *)
Lemma _reduce_weight_decay_loop_nth factor eps mins groups :
  forall i k g g',
    nth_error groups k = Some g ->
    nth_error (fst (_reduce_weight_decay_loop factor eps mins i groups)) k = Some g' ->
    g' = g \/
    exists min_lr,
      nth_error mins (i + k) = Some min_lr /\
      Qeq_bool (weight_decay g) 0 = false /\
      Qltb eps (weight_decay g - Py.max (weight_decay g * factor) min_lr)%Q = true /\
      g' = set_weight_decay (Py.max (weight_decay g * factor) min_lr) g.
Proof.
  induction groups as [|g0 rest IH]; intros i k g g' Hk Hk'.
  - destruct k; discriminate.
  - simpl in Hk'. specialize (IH (S i)).
    destruct (Qeq_bool (weight_decay g0) 0) eqn:Ez; simpl in Hk'.
    + destruct (_reduce_weight_decay_loop factor eps mins (S i) rest) as [rest' e].
      simpl in *. destruct k as [|k]; simpl in *.
      * left. congruence.
      * replace (i + S k)%nat with (S i + k)%nat by lia. eapply IH; eauto.
    + destruct (nth_error mins i) as [m|] eqn:Em.
      * destruct (_reduce_weight_decay_loop factor eps mins (S i) rest) as [rest' e].
        simpl in *. destruct k as [|k]; simpl in *.
        -- injection Hk as <-. injection Hk' as <-.
           destruct (Qltb eps (weight_decay g0 - Py.max (weight_decay g0 * factor) m)%Q)
             eqn:E.
           ++ right. exists m. rewrite Nat.add_0_r. auto.
           ++ left. reflexivity.
        -- replace (i + S k)%nat with (S i + k)%nat by lia. eapply IH; eauto.
      * simpl in Hk'. left. congruence.
Qed.

Lemma _reduce_weight_decay_groups s ep :
  param_groups (optimizer (state_of (_reduce_weight_decay s ep)))
  = fst (_reduce_weight_decay_loop (factor s) (eps s) (min_lrs s) 0
           (param_groups (optimizer s))).
Proof.
  unfold _reduce_weight_decay.
  destruct (_reduce_weight_decay_loop (factor s) (eps s) (min_lrs s) 0
              (param_groups (optimizer s))) as [groups [e|]]; reflexivity.
Qed.

(** X12.  [_reduce_weight_decay] keeps the number of groups, never
    touches a learning rate, and leaves a group whose weight decay is
    zero exactly as it was, whatever its floor and [eps]; this holds
    also when the call raises for a missing floor. *)
Theorem reduce_weight_decay_leaves_rates_and_zeros :
  forall (s : t) (epoch : Z),
    List.length (param_groups (optimizer (state_of (_reduce_weight_decay s epoch))))
    = List.length (param_groups (optimizer s)) /\
    forall k g g',
      nth_error (param_groups (optimizer s)) k = Some g ->
      nth_error (param_groups (optimizer (state_of (_reduce_weight_decay s epoch)))) k
      = Some g' ->
      lr g' = lr g /\ ((weight_decay g == 0)%Q -> g' = g).
Proof.
  intros s epoch. rewrite _reduce_weight_decay_groups.
  split; [apply _reduce_weight_decay_loop_length|].
  intros k g g' Hg Hg'.
  destruct (_reduce_weight_decay_loop_nth _ _ _ _ _ _ _ _ Hg Hg')
    as [->|(mn & _ & Hz & _ & ->)].
  - auto.
  - split; [reflexivity|]. intros H. apply Qeq_bool_iff in H. congruence.
Qed.

(** X13.  With an [eps] that is not negative [_reduce_weight_decay]
    never increases a weight decay, and it never takes one that is at or
    above the group's entry of [min_lrs] (the floor list of the learning
    rates, which the method reuses) below that entry. *)
Theorem reduce_weight_decay_never_increases :
  forall (s : t) (epoch : Z) (k : nat) (g g' : param_group),
    (0 <= eps s)%Q ->
    nth_error (param_groups (optimizer s)) k = Some g ->
    nth_error (param_groups (optimizer (state_of (_reduce_weight_decay s epoch)))) k
    = Some g' ->
    (weight_decay g' <= weight_decay g)%Q /\
    (forall min_lr,
        nth_error (min_lrs s) k = Some min_lr ->
        (min_lr <= weight_decay g)%Q -> (min_lr <= weight_decay g')%Q).
Proof.
  intros s epoch k g g' Heps Hg Hg'. rewrite _reduce_weight_decay_groups in Hg'.
  destruct (_reduce_weight_decay_loop_nth _ _ _ _ _ _ _ _ Hg Hg')
    as [->|(mn & Hm & _ & Hw & ->)].
  - split; [apply Qle_refl|]. auto.
  - simpl in *. apply Qltb_lt in Hw. split; [Lqa.lra|].
    intros mn' Hm' _. assert (mn' = mn) as -> by congruence. apply max_ge_r.
Qed.

Lemma reduce_weight_decay_never_increases_witness :
  match
    nth_error (param_groups (optimizer (state_of (_reduce_weight_decay three_groups 2)))) 0
  with
  | Some g' => (weight_decay g' <= 1 # 10)%Q
  | None => False
  end.
Proof.
  destruct (nth_error
              (param_groups (optimizer (state_of (_reduce_weight_decay three_groups 2)))) 0)
    as [g'|] eqn:E.
  - apply (reduce_weight_decay_never_increases three_groups 2 0
             {| lr := 1; weight_decay := 1 # 10 |} g').
    + simpl. Lqa.lra.
    + reflexivity.
    + exact E.
  - vm_compute in E. discriminate.
Defined.

End ReduceLRWDOnPlateauMore.

(** ** More on [ExpAnnealLR.get_lr] *)

Module ExpAnnealLRMore.

Import ExpAnnealLR ExpAnnealLRFacts.
Local Open Scope R_scope.

Lemma get_lr_at (self : t) (s : Z) :
  0 < end_lr self ->
  (0 < iterations self)%Z ->
  Forall (fun b => 0 < b) (base_lrs self) ->
  get_lr (set_last_epoch (s - 1) self)
  = Some (map (fun base_lr =>
                 base_lr * Rpower (end_lr self / base_lr)
                             (IZR s / IZR (iterations self)))
            (base_lrs self)).
Proof.
  intros He Hi Hpos.
  rewrite (get_lr_positive (set_last_epoch (s - 1) self) He Hi Hpos). simpl.
  replace (s - 1 + 1)%Z with s by lia. reflexivity.
Qed.

Lemma Forall2_map_r {A B} (P : A -> B -> Prop) (f : A -> B) (l : list A) :
  Forall (fun a => P a (f a)) l -> Forall2 P l (map f l).
Proof.
  induction 1; simpl; constructor; assumption.
Qed.

Lemma ratio_positive e b : 0 < e -> 0 < b -> 0 < e / b.
Proof. intros. apply Rdiv_lt_0_compat; assumption. Qed.

Lemma ratio_lt_1 e b : 0 < b -> e < b -> e / b < 1.
Proof.
  intros Hb H. apply (Rmult_lt_reg_r b); [exact Hb|].
  unfold Rdiv. rewrite Rmult_assoc, Rinv_l; Lra.lra.
Qed.

Lemma ratio_gt_1 e b : 0 < b -> b < e -> 1 < e / b.
Proof.
  intros Hb H. apply (Rmult_lt_reg_r b); [exact Hb|].
  unfold Rdiv. rewrite Rmult_assoc, Rinv_l; Lra.lra.
Qed.

Lemma rate_at_end e b : 0 < e -> 0 < b -> b * Rpower (e / b) 1 = e.
Proof.
  intros He Hb. rewrite Rpower_1 by (apply ratio_positive; assumption).
  field. Lra.lra.
Qed.

(** X14.  The schedule starts at each group's base rate and reaches
    [end_lr] exactly at the last iteration: for positive rates and a
    positive number of iterations, [get_lr] gives the base rates at
    iteration 0 ([last_epoch = -1]) and [end_lr] for every group at
    iteration [iterations] ([last_epoch = iterations - 1]). *)
Theorem exp_anneal_endpoints :
  forall (self : t),
    0 < end_lr self ->
    (0 < iterations self)%Z ->
    Forall (fun b => 0 < b) (base_lrs self) ->
    get_lr (set_last_epoch (-1) self) = Some (base_lrs self) /\
    get_lr (set_last_epoch (iterations self - 1) self)
    = Some (map (fun _ => end_lr self) (base_lrs self)).
Proof.
  intros self He Hi Hpos. split.
  - change (-1)%Z with (0 - 1)%Z. rewrite get_lr_at by assumption. f_equal.
    rewrite <- (map_id (base_lrs self)) at 2. apply map_ext_in.
    intros b Hb. rewrite Forall_forall in Hpos. specialize (Hpos b Hb).
    replace (0 / IZR (iterations self)) with 0 by (unfold Rdiv; ring).
    rewrite Rpower_O by (apply ratio_positive; assumption). ring.
  - rewrite get_lr_at by assumption. f_equal. apply map_ext_in.
    intros b Hb. rewrite Forall_forall in Hpos. specialize (Hpos b Hb).
    replace (IZR (iterations self) / IZR (iterations self)) with 1.
    + apply rate_at_end; assumption.
    + field. apply not_0_IZR. lia.
Qed.

Lemma exp_anneal_endpoints_witness :
  get_lr (set_last_epoch (-1) (example 5)) = Some [1] /\
  get_lr (set_last_epoch (100 - 1) (example 5)) = Some [1 / 100].
Proof.
  apply (exp_anneal_endpoints (example 5)).
  - simpl. Lra.lra.
  - simpl. lia.
  - simpl. constructor; [Lra.lra|constructor].
Defined.

(** A base above 1 raised to a larger exponent is larger. *)
Lemma Rpower_increasing r p q : 1 < r -> p < q -> Rpower r p < Rpower r q.
Proof. intros. apply Rpower_lt; assumption. Qed.

(** X15.  The schedule does not stop at [end_lr]: past the last
    iteration the rate keeps moving away from the base rate.  When
    [end_lr] is below a group's base rate, every iteration after
    [iterations] gives that group a rate strictly below [end_lr]. *)
Theorem exp_anneal_overshoots :
  forall (self : t) (s : Z),
    0 < end_lr self ->
    (0 < iterations self)%Z ->
    Forall (fun b => end_lr self < b) (base_lrs self) ->
    (iterations self < s)%Z ->
    exists rates,
      get_lr (set_last_epoch (s - 1) self) = Some rates /\
      Forall (fun r => r < end_lr self) rates.
Proof.
  intros self s He Hi Hlt Hs.
  assert (Hpos : Forall (fun b => 0 < b) (base_lrs self)).
  { eapply Forall_impl; [|exact Hlt]. simpl. intros b Hb. Lra.lra. }
  eexists. split; [apply get_lr_at; assumption|].
  apply Forall_map. eapply Forall_impl; [|exact Hlt]. simpl. intros b Hb.
  rewrite <- (rate_at_end (end_lr self) b) at 2 by Lra.lra.
  apply Rmult_lt_compat_l; [Lra.lra|].
  apply Rpower_decreasing.
  - split; [apply ratio_positive; Lra.lra|apply ratio_lt_1; Lra.lra].
  - apply (Rmult_lt_reg_r (IZR (iterations self))); [apply IZR_lt; exact Hi|].
    unfold Rdiv. rewrite Rmult_assoc, Rinv_l by (apply not_0_IZR; lia).
    rewrite Rmult_1_l, Rmult_1_r. apply IZR_lt. exact Hs.
Qed.

Lemma exp_anneal_overshoots_witness :
  exists rates,
    get_lr (set_last_epoch (150 - 1) (example 0)) = Some rates /\
    Forall (fun r => r < 1 / 100) rates.
Proof.
  apply (exp_anneal_overshoots (example 0) 150).
  - simpl. Lra.lra.
  - simpl. lia.
  - simpl. constructor; [Lra.lra|constructor].
  - simpl. lia.
Defined.

(** X16.  When [end_lr] is above the base rates the schedule increases
    (the use the class documents): a later iteration gives every group a
    strictly larger rate, and between iteration 0 and the last one each
    rate lies strictly between its base rate and [end_lr]. *)
Theorem exp_anneal_increases :
  forall (self : t) (s1 s2 : Z),
    (0 < iterations self)%Z ->
    Forall (fun b => 0 < b < end_lr self) (base_lrs self) ->
    (s1 < s2)%Z ->
    exists l1 l2,
      get_lr (set_last_epoch (s1 - 1) self) = Some l1 /\
      get_lr (set_last_epoch (s2 - 1) self) = Some l2 /\
      Forall2 (fun r1 r2 => r1 < r2) l1 l2 /\
      ((0 <= s1)%Z -> (s2 <= iterations self)%Z ->
       Forall2 (fun b r1 => b <= r1) (base_lrs self) l1 /\
       Forall (fun r2 => r2 <= end_lr self) l2).
Proof.
  intros self s1 s2 Hi Hlt Hs.
  destruct (base_lrs self) as [|b0 rest] eqn:Eb.
  { unfold get_lr. simpl. rewrite Eb.
    destruct (Z.eqb_spec (iterations self) 0); [lia|]. simpl.
    exists [], []. repeat split; constructor. }
  assert (He : 0 < end_lr self).
  { inversion Hlt; subst. Lra.lra. }
  rewrite <- Eb in *. clear Eb b0 rest.
  assert (Hpos : Forall (fun b => 0 < b) (base_lrs self)).
  { eapply Forall_impl; [|exact Hlt]. simpl. intros b Hb. Lra.lra. }
  assert (HN : 0 < IZR (iterations self)) by (apply IZR_lt; exact Hi).
  assert (Hdiv : forall a c : Z, (a < c)%Z ->
                   IZR a / IZR (iterations self) < IZR c / IZR (iterations self)).
  { intros a c Hac. apply Rmult_lt_compat_r; [apply Rinv_0_lt_compat; exact HN|].
    apply IZR_lt. exact Hac. }
  assert (Hdivle : forall a c : Z, (a <= c)%Z ->
                   IZR a / IZR (iterations self) <= IZR c / IZR (iterations self)).
  { intros a c Hac. apply Rmult_le_compat_r.
    - left. apply Rinv_0_lt_compat. exact HN.
    - apply IZR_le. exact Hac. }
  do 2 eexists. rewrite !get_lr_at by assumption.
  split; [reflexivity|]. split; [reflexivity|]. split.
  - clear Hpos. induction Hlt as [|b rest Hb Hrest IH]; simpl; constructor; [|exact IH].
    apply Rmult_lt_compat_l; [Lra.lra|].
    apply Rpower_increasing; [apply ratio_gt_1; Lra.lra|apply Hdiv; exact Hs].
  - intros H0 HN2. split.
    + apply Forall2_map_r. eapply Forall_impl; [|exact Hlt]. simpl. intros b Hb.
      rewrite <- (Rmult_1_r b) at 1. apply Rmult_le_compat_l; [Lra.lra|].
      rewrite <- (Rpower_O (end_lr self / b)) by (apply ratio_positive; Lra.lra).
      apply Rle_Rpower; [left; apply ratio_gt_1; Lra.lra|].
      replace 0 with (IZR 0 / IZR (iterations self)) by (unfold Rdiv; ring).
      apply Hdivle. exact H0.
    + apply Forall_map. eapply Forall_impl; [|exact Hlt]. simpl. intros b Hb.
      rewrite <- (rate_at_end (end_lr self) b) at 2 by Lra.lra.
      apply Rmult_le_compat_l; [Lra.lra|].
      apply Rle_Rpower; [left; apply ratio_gt_1; Lra.lra|].
      replace 1 with (IZR (iterations self) / IZR (iterations self))
        by (field; apply not_0_IZR; lia).
      apply Hdivle. exact HN2.
Qed.

Lemma exp_anneal_increases_witness :
  exists l1 l2,
    get_lr (set_last_epoch (1 - 1)
              {| end_lr := 10; iterations := 4; last_epoch := 0; base_lrs := [1] |}) = Some l1 /\
    get_lr (set_last_epoch (2 - 1)
              {| end_lr := 10; iterations := 4; last_epoch := 0; base_lrs := [1] |}) = Some l2 /\
    Forall2 (fun r1 r2 => r1 < r2) l1 l2.
Proof.
  destruct (exp_anneal_increases
              {| end_lr := 10; iterations := 4; last_epoch := 0; base_lrs := [1] |} 1 2)
    as (l1 & l2 & H1 & H2 & H3 & _).
  - simpl. lia.
  - simpl. constructor; [Lra.lra|constructor].
  - lia.
  - exists l1, l2. auto.
Defined.

End ExpAnnealLRMore.

(** ** [LinearSchedulerWithWarmup.linear_lr_lambda] *)

Module LinearSchedulerWithWarmupFacts.

Import LinearSchedulerWithWarmup PyFacts.
Local Open Scope Q_scope.

Lemma int_max_ge_1 n : (1 <= int_max 1 n)%Z.
Proof. unfold int_max. destruct (Z.ltb_spec 1 n); lia. Qed.

Lemma int_max_pos n : (1 < n)%Z \/ n = 1%Z -> int_max 1 n = n.
Proof. unfold int_max. intros H. destruct (Z.ltb_spec 1 n); lia. Qed.

Lemma inject_Z_pos n : (0 < n)%Z -> 0 < inject_Z n.
Proof. intros H. change 0 with (inject_Z 0). rewrite <- Zlt_Qlt. exact H. Qed.

(** Fractions over the same positive divisor compare as their
    numerators do. *)
Lemma div_le_compat a b d : (0 < d)%Z -> (a <= b)%Z -> inject_Z a / inject_Z d <= inject_Z b / inject_Z d.
Proof.
  intros Hd Hab. apply Qle_shift_div_l; [apply inject_Z_pos; exact Hd|].
  unfold Qdiv. rewrite <- Qmult_assoc, (Qmult_comm (/ inject_Z d)).
  rewrite Qmult_inv_r, Qmult_1_r.
  - rewrite <- Zle_Qle. exact Hab.
  - intros H. pose proof (inject_Z_pos d Hd) as Hp. rewrite H in Hp.
    apply (Qlt_irrefl 0). exact Hp.
Qed.

Lemma div_lt_compat a b d : (0 < d)%Z -> (a < b)%Z -> inject_Z a / inject_Z d < inject_Z b / inject_Z d.
Proof.
  intros Hd Hab. apply Qlt_shift_div_l; [apply inject_Z_pos; exact Hd|].
  unfold Qdiv. rewrite <- Qmult_assoc, (Qmult_comm (/ inject_Z d)).
  rewrite Qmult_inv_r, Qmult_1_r.
  - rewrite <- Zlt_Qlt. exact Hab.
  - intros H. pose proof (inject_Z_pos d Hd) as Hp. rewrite H in Hp.
    apply (Qlt_irrefl 0). exact Hp.
Qed.

Lemma div_self d : (0 < d)%Z -> inject_Z d / inject_Z d == 1.
Proof.
  intros Hd. unfold Qdiv. apply Qmult_inv_r.
  intros H. pose proof (inject_Z_pos d Hd) as Hp. rewrite H in Hp.
  apply (Qlt_irrefl 0). exact Hp.
Qed.

Lemma div_zero d : inject_Z 0 / inject_Z d == 0.
Proof. unfold Qdiv. change (inject_Z 0) with 0. apply Qmult_0_l. Qed.

Lemma max_0_nonneg x : 0 <= Py.max 0 x.
Proof. apply max_ge_l. Qed.

Lemma max_0_le x y : x <= y -> 0 <= y -> Py.max 0 x <= y.
Proof.
  intros Hxy Hy. unfold Py.max. destruct (Qltb 0 x); assumption.
Qed.

Lemma max_0_mono x y : x <= y -> Py.max 0 x <= Py.max 0 y.
Proof.
  intros Hxy. unfold Py.max.
  destruct (Qltb 0 x) eqn:Ex, (Qltb 0 y) eqn:Ey;
    try apply Qltb_lt in Ex; try apply Qltb_ge in Ex;
    try apply Qltb_lt in Ey; try apply Qltb_ge in Ey; Lqa.lra.
Qed.

(** X17.  From step 0 on, the multiplier is a fraction of the base
    rate: it lies between 0 and 1, whatever the numbers of training and
    warmup steps (zero or negative ones included). *)
Theorem linear_lambda_bounds :
  forall (num_train_steps num_warmup_steps current_step : Z),
    (0 <= current_step)%Z ->
    0 <= linear_lr_lambda num_train_steps num_warmup_steps current_step <= 1.
Proof.
  intros T W s Hs. unfold linear_lr_lambda.
  destruct (Z.ltb_spec s W) as [Hlt|Hge].
  - rewrite int_max_pos by lia.
    assert (HW : (0 < W)%Z) by lia. split.
    + rewrite <- (div_zero W). apply div_le_compat; lia.
    + rewrite <- (div_self W HW). apply div_le_compat; lia.
  - split; [apply max_0_nonneg|].
    apply max_0_le; [|Lqa.lra].
    pose proof (int_max_ge_1 (T - W)) as Hd.
    destruct (Z.le_gt_cases (T - s) 0) as [Hneg|Hpos].
    + apply Qle_trans with (inject_Z 0 / inject_Z (int_max 1 (T - W))).
      * apply div_le_compat; lia.
      * rewrite div_zero. Lqa.lra.
    + rewrite int_max_pos by lia.
      rewrite <- (div_self (T - W)) by lia. apply div_le_compat; lia.
Qed.

Lemma linear_lambda_bounds_witness :
  0 <= linear_lr_lambda 100 10 55 <= 1.
Proof.
  apply (linear_lambda_bounds 100 10 55). lia.
Defined.

(** X18.  With a warmup shorter than the training, the multiplier is 0
    at step 0 (when there is a warmup at all), exactly 1 at the end of
    the warmup, and 0 from the last training step on. *)
Theorem linear_lambda_landmarks :
  forall (num_train_steps num_warmup_steps : Z),
    (0 <= num_warmup_steps < num_train_steps)%Z ->
    ((0 < num_warmup_steps)%Z ->
     linear_lr_lambda num_train_steps num_warmup_steps 0 == 0) /\
    linear_lr_lambda num_train_steps num_warmup_steps num_warmup_steps == 1 /\
    (forall current_step,
        (num_train_steps <= current_step)%Z ->
        linear_lr_lambda num_train_steps num_warmup_steps current_step == 0).
Proof.
  intros T W [HW HT]. unfold linear_lr_lambda. repeat split.
  - intros HW0. destruct (Z.ltb_spec 0 W); [|lia]. apply div_zero.
  - destruct (Z.ltb_spec W W); [lia|].
    rewrite int_max_pos by lia.
    pose proof (div_self (T - W)) as Hone.
    apply Qle_antisym.
    + apply max_0_le; [rewrite Hone by lia|]; Lqa.lra.
    + apply Qle_trans with (inject_Z (T - W) / inject_Z (T - W)).
      * rewrite Hone by lia. Lqa.lra.
      * apply max_ge_r.
  - intros s Hs. destruct (Z.ltb_spec s W); [lia|].
    apply Qle_antisym; [|apply max_0_nonneg].
    apply max_0_le; [|Lqa.lra].
    apply Qle_trans with (inject_Z 0 / inject_Z (int_max 1 (T - W))).
    + apply div_le_compat; [pose proof (int_max_ge_1 (T - W)); lia|lia].
    + rewrite div_zero. Lqa.lra.
Qed.

Lemma linear_lambda_landmarks_witness :
  linear_lr_lambda 100 10 0 == 0 /\
  linear_lr_lambda 100 10 10 == 1 /\
  linear_lr_lambda 100 10 100 == 0.
Proof.
  destruct (linear_lambda_landmarks 100 10) as (H0 & H1 & H2); [lia|].
  split; [apply H0; lia|]. split; [exact H1|apply H2; lia].
Defined.

(** X19.  The multiplier rises strictly during the warmup and never
    rises after it: for steps [s1 < s2] both before the end of the warmup
    the later one has the larger multiplier, and for steps [s1 <= s2]
    both at or after it the later one has a multiplier that is no
    larger. *)
Theorem linear_lambda_rises_then_falls :
  forall (num_train_steps num_warmup_steps s1 s2 : Z),
    ((s1 < s2)%Z -> (s2 < num_warmup_steps)%Z ->
     linear_lr_lambda num_train_steps num_warmup_steps s1
     < linear_lr_lambda num_train_steps num_warmup_steps s2) /\
    ((num_warmup_steps <= s1)%Z -> (s1 <= s2)%Z ->
     linear_lr_lambda num_train_steps num_warmup_steps s2
     <= linear_lr_lambda num_train_steps num_warmup_steps s1).
Proof.
  intros T W s1 s2. unfold linear_lr_lambda. split.
  - intros H12 H2.
    destruct (Z.ltb_spec s1 W); [|lia]. destruct (Z.ltb_spec s2 W); [|lia].
    apply div_lt_compat; [pose proof (int_max_ge_1 W); lia|exact H12].
  - intros H1 H12.
    destruct (Z.ltb_spec s1 W); [lia|]. destruct (Z.ltb_spec s2 W); [lia|].
    apply max_0_mono. apply div_le_compat; [pose proof (int_max_ge_1 (T - W)); lia|lia].
Qed.

Lemma linear_lambda_rises_then_falls_witness :
  linear_lr_lambda 100 10 3 < linear_lr_lambda 100 10 7 /\
  linear_lr_lambda 100 10 60 <= linear_lr_lambda 100 10 20.
Proof.
  destruct (linear_lambda_rises_then_falls 100 10 3 7) as [H1 _].
  destruct (linear_lambda_rises_then_falls 100 10 20 60) as [_ H2].
  split; [apply H1; lia|apply H2; lia].
Defined.

(** X20.  A warmup that is not shorter than the training never lets the
    rate through: every step at or after the end of such a warmup has
    multiplier 0, so the rate climbs to at most
    [(num_warmup_steps - 1) / num_warmup_steps] of the base rate and then
    drops to 0. *)
Theorem linear_lambda_warmup_too_long :
  forall (num_train_steps num_warmup_steps current_step : Z),
    (num_train_steps <= num_warmup_steps)%Z ->
    (num_warmup_steps <= current_step)%Z ->
    linear_lr_lambda num_train_steps num_warmup_steps current_step == 0.
Proof.
  intros T W s HTW Hs. unfold linear_lr_lambda.
  destruct (Z.ltb_spec s W); [lia|].
  apply Qle_antisym; [|apply max_0_nonneg].
  apply max_0_le; [|Lqa.lra].
  apply Qle_trans with (inject_Z 0 / inject_Z (int_max 1 (T - W))).
  - apply div_le_compat; [pose proof (int_max_ge_1 (T - W)); lia|lia].
  - rewrite div_zero. Lqa.lra.
Qed.

Lemma linear_lambda_warmup_too_long_witness :
  linear_lr_lambda 10 10 10 == 0.
Proof.
  apply (linear_lambda_warmup_too_long 10 10 10); lia.
Defined.

End LinearSchedulerWithWarmupFacts.

(** ** [convert_labels_to_one_hot] *)

Module LabelsFacts.

Import Labels.
Local Open Scope Z_scope.

Lemma contains_In labels label : contains labels label = true <-> In label labels.
Proof.
  unfold contains. rewrite existsb_exists. split.
  - intros (x & Hx & E). apply String.eqb_eq in E. subst. exact Hx.
  - intros H. exists label. split; [exact H|apply String.eqb_refl].
Qed.

(** The result has one row per entry of [label_list], every row
    has one column per item of the dictionary, and every cell is 0 or
    1; an empty [label_list] gives no row and an empty dictionary gives
    empty rows. *)
Lemma one_hot_shape :
  forall (label_list : list (list string)) (items : list string),
    List.length (convert_labels_to_one_hot label_list items) = List.length label_list /\
    Forall (fun row =>
              List.length row = List.length items /\
              Forall (fun cell => cell = 0 \/ cell = 1) row)
      (convert_labels_to_one_hot label_list items).
Proof.
  intros label_list items. unfold convert_labels_to_one_hot.
  split; [apply length_map|].
  apply Forall_map. apply Forall_forall. intros labels _.
  split; [apply length_map|].
  apply Forall_map. apply Forall_forall. intros label _.
  destruct (contains labels label); auto.
Qed.

(** X21.  Cell [j] of row [i] is 1 exactly when item [j] of the
    dictionary is among the labels of entry [i], and 0 otherwise. *)
Theorem one_hot_cell :
  forall (label_list : list (list string)) (items : list string)
         (i j : nat) (labels : list string) (item : string),
    nth_error label_list i = Some labels ->
    nth_error items j = Some item ->
    exists row cell,
      nth_error (convert_labels_to_one_hot label_list items) i = Some row /\
      nth_error row j = Some cell /\
      (In item labels -> cell = 1) /\
      (~ In item labels -> cell = 0).
Proof.
  intros label_list items i j labels item Hi Hj. unfold convert_labels_to_one_hot.
  eexists. eexists. split.
  - rewrite nth_error_map, Hi. reflexivity.
  - split.
    + rewrite nth_error_map, Hj. reflexivity.
    + simpl. destruct (contains labels item) eqn:E.
      * split; [reflexivity|]. intros H. exfalso. apply H. apply contains_In. exact E.
      * split; [|reflexivity]. intros H. apply contains_In in H. congruence.
Qed.

Lemma one_hot_cell_witness :
  exists row cell,
    nth_error (convert_labels_to_one_hot [["B"; "A"]; []] ["A"; "B"; "C"])%string 0
    = Some row /\
    nth_error row 1 = Some cell /\
    (In "B"%string ["B"; "A"]%string -> cell = 1) /\
    (~ In "B"%string ["B"; "A"]%string -> cell = 0).
Proof.
  apply (one_hot_cell [["B"; "A"]; []] ["A"; "B"; "C"] 0 1 ["B"; "A"] "B")%string;
    reflexivity.
Defined.

Lemma row_ext labels1 labels2 items :
  (forall item, In item items -> (In item labels1 <-> In item labels2)) ->
  map (fun label => if contains labels1 label then 1 else 0) items
  = map (fun label => if contains labels2 label then 1 else 0) items.
Proof.
  intros H. apply map_ext_in. intros item Hin.
  destruct (contains labels1 item) eqn:E1, (contains labels2 item) eqn:E2; auto.
  - apply contains_In in E1. apply H in E1; [|exact Hin].
    apply contains_In in E1. congruence.
  - apply contains_In in E2. apply H in E2; [|exact Hin].
    apply contains_In in E2. congruence.
Qed.

(** X22.  A row records only which dictionary items occur among the
    labels: the order of the labels, their repetitions and any label
    that is not in the dictionary leave no trace.  Two label lists that
    contain the same dictionary items give the same row. *)
Theorem one_hot_ignores_order_and_unknown_labels :
  forall (labels1 labels2 : list string) (items : list string),
    (forall item, In item items -> (In item labels1 <-> In item labels2)) ->
    convert_labels_to_one_hot [labels1] items
    = convert_labels_to_one_hot [labels2] items.
Proof.
  intros labels1 labels2 items H. unfold convert_labels_to_one_hot. simpl.
  f_equal. apply row_ext. exact H.
Qed.

Lemma one_hot_ignores_order_and_unknown_labels_witness :
  convert_labels_to_one_hot [["B"; "Z"; "A"; "B"]]%string ["A"; "B"; "C"]%string
  = convert_labels_to_one_hot [["A"; "B"]]%string ["A"; "B"; "C"]%string.
Proof.
  apply (one_hot_ignores_order_and_unknown_labels
           ["B"; "Z"; "A"; "B"] ["A"; "B"] ["A"; "B"; "C"])%string.
  intros item [<-|[<-|[<-|[]]]]; simpl; split; intros H;
    repeat (destruct H as [H|H]; try discriminate H); auto.
Defined.

End LabelsFacts.

(** ** [identify_dynamic_embeddings] *)

Module DynamicEmbeddingsFacts.

Import DynamicEmbeddings.

Section DataPoints.

Variable DT : Type.
Variable Token : Type.
Variable is_Sentence : DT -> bool.
Variable first_token : DT -> exn + Token.
Variable token_embeddings : Token -> list (string * bool).
Variable embeddings : DT -> list (string * bool).
Variable list_of_set : list string -> list string.

(** What [list(set(names))] is known to do: it keeps the elements. *)
Hypothesis list_of_set_elements :
  forall names name, In name (list_of_set names) <-> In name names.

Notation loop :=
  (identify_loop DT Token is_Sentence first_token token_embeddings embeddings list_of_set).
Notation identify :=
  (identify_dynamic_embeddings DT Token is_Sentence first_token token_embeddings
     embeddings list_of_set).
Notation names_of :=
  (dynamic_names_of DT Token is_Sentence first_token token_embeddings embeddings).
Notation bare := (no_embeddings DT Token is_Sentence first_token token_embeddings embeddings).

Lemma list_of_set_nil : list_of_set [] = [].
Proof.
  destruct (list_of_set []) as [|x l] eqn:E; [reflexivity|].
  exfalso. apply (list_of_set_elements [] x). rewrite E. left. reflexivity.
Qed.

Lemma collect_spec items :
  forall dynamic all,
    collect items dynamic all = (dynamic ++ dynamic_names items, all ++ map fst items).
Proof.
  unfold dynamic_names.
  induction items as [|[name grad] rest IH]; intros dynamic all; simpl.
  - now rewrite !app_nil_r.
  - rewrite IH. destruct grad; simpl; now rewrite <- !app_assoc.
Qed.

(** One turn of the outer loop, entered with no dynamic name yet. *)
Lemma loop_cons data_point rest all :
  loop (data_point :: rest) [] all =
  match names_of data_point with
  | inl e => inl e
  | inr [] =>
    loop rest []
      (if is_Sentence data_point then
         match first_token data_point with
         | inr token =>
           (all ++ map fst (token_embeddings token)) ++ map fst (embeddings data_point)
         | inl _ => all
         end
       else all ++ map fst (embeddings data_point))
  | inr (name :: names) => inr (Some (name :: names))
  end.
Proof.
  unfold dynamic_names_of. simpl.
  destruct (is_Sentence data_point).
  - destruct (first_token data_point) as [e|token]; simpl; [reflexivity|].
    rewrite !collect_spec. simpl.
    destruct (dynamic_names (token_embeddings token) ++ dynamic_names (embeddings data_point));
      reflexivity.
  - simpl. rewrite collect_spec. simpl.
    destruct (dynamic_names (embeddings data_point)); reflexivity.
Qed.

Lemma loop_first_dynamic before :
  forall all data_point after,
    Forall (fun p => names_of p = inr []) before ->
    loop (before ++ data_point :: after) [] all =
    match names_of data_point with
    | inl e => inl e
    | inr [] => loop (data_point :: after) [] all
    | inr (name :: names) => inr (Some (name :: names))
    end \/
    names_of data_point = inr [] .
Proof.
  induction before as [|p before IH]; intros all data_point after Hb.
  - simpl app. destruct (names_of data_point) as [e|[|n ns]] eqn:E; auto.
    + left. rewrite loop_cons, E. reflexivity.
    + left. rewrite loop_cons, E. reflexivity.
  - inversion Hb as [|? ? Hp Hrest]; subst.
    change ((p :: before) ++ data_point :: after) with (p :: before ++ data_point :: after).
    rewrite loop_cons, Hp.
    destruct (names_of data_point) as [e|[|n ns]] eqn:E; auto; left.
    + destruct (IH (if is_Sentence p
                    then match first_token p with
                         | inl _ => all
                         | inr token =>
                           (all ++ map fst (token_embeddings token))
                           ++ map fst (embeddings p)
                         end
                    else all ++ map fst (embeddings p)) data_point after Hrest)
        as [H|H]; [|congruence].
      rewrite E in H. exact H.
    + destruct (IH (if is_Sentence p
                    then match first_token p with
                         | inl _ => all
                         | inr token =>
                           (all ++ map fst (token_embeddings token))
                           ++ map fst (embeddings p)
                         end
                    else all ++ map fst (embeddings p)) data_point after Hrest)
        as [H|H]; [|congruence].
      rewrite E in H. exact H.
Qed.

(** X23.  The first data point that has a dynamic embedding decides the
    answer, and nothing after it is looked at: when the data points
    before it have none, the result is the list of its dynamic names (its
    first token's, then its own, in order, repetitions kept), whatever
    follows; and when its first token cannot be read, the exception is
    the result. *)
Theorem first_dynamic_data_point_decides :
  forall (before after : list DT) (data_point : DT),
    Forall
      (fun p =>
         dynamic_names_of DT Token is_Sentence first_token token_embeddings embeddings p
         = inr [])
      before ->
    (forall name names,
        dynamic_names_of DT Token is_Sentence first_token token_embeddings embeddings
          data_point = inr (name :: names) ->
        identify_dynamic_embeddings DT Token is_Sentence first_token token_embeddings
          embeddings list_of_set (before ++ data_point :: after)
        = inr (Some (name :: names))) /\
    (forall e,
        dynamic_names_of DT Token is_Sentence first_token token_embeddings embeddings
          data_point = inl e ->
        identify_dynamic_embeddings DT Token is_Sentence first_token token_embeddings
          embeddings list_of_set (before ++ data_point :: after)
        = inl e).
Proof.
  intros before after data_point Hb. unfold identify_dynamic_embeddings.
  split.
  - intros name names E.
    destruct (loop_first_dynamic before [] data_point after Hb) as [H|H]; [|congruence].
    rewrite E in H. exact H.
  - intros e E.
    destruct (loop_first_dynamic before [] data_point after Hb) as [H|H]; [|congruence].
    rewrite E in H. exact H.
Qed.

Lemma names_of_bare p : bare p -> names_of p = inr [].
Proof.
  intros [Hown Htok]. unfold dynamic_names_of.
  destruct (is_Sentence p).
  - destruct (Htok eq_refl) as (token & -> & Ht). simpl. now rewrite Ht, Hown.
  - now rewrite Hown.
Qed.

Lemma loop_none_iff data_points :
  forall all,
    loop data_points [] all = inr None <-> (all = [] /\ Forall bare data_points).
Proof.
  induction data_points as [|p rest IH]; intros all.
  - simpl. destruct all; split.
    + intros _. split; [reflexivity|constructor].
    + reflexivity.
    + discriminate.
    + intros [H _]. discriminate.
  - rewrite loop_cons. unfold dynamic_names_of, no_embeddings.
    destruct (is_Sentence p) eqn:Es.
    + destruct (first_token p) as [e|token] eqn:Et; simpl.
      * split; [discriminate|]. intros [_ H]. inversion H as [|? ? [_ Hp] _]; subst.
        destruct (Hp Es) as (token & Hc & _). congruence.
      * destruct (dynamic_names (token_embeddings token) ++ dynamic_names (embeddings p))
          eqn:En.
        -- rewrite IH. split.
           ++ intros [Hall Hrest].
              apply app_eq_nil in Hall. destruct Hall as [Hall Hown].
              apply app_eq_nil in Hall. destruct Hall as [Hall Htok].
              apply map_eq_nil in Hown. apply map_eq_nil in Htok.
              split; [exact Hall|]. constructor; [|exact Hrest].
              unfold no_embeddings. rewrite Es, Et. split; [exact Hown|].
              intros _. exists token. auto.
           ++ intros [-> H]. inversion H as [|? ? [Hown Hp] Hrest]; subst.
              destruct (Hp Es) as (token' & Hc & Ht).
              assert (token' = token) as -> by congruence.
              rewrite Hown, Ht. simpl. auto.
        -- split; [discriminate|]. intros [_ H].
           inversion H as [|? ? [Hown Hp] _]; subst.
           destruct (Hp Es) as (token' & Hc & Ht).
           assert (token' = token) as -> by congruence.
           rewrite Hown, Ht in En. discriminate.
    + simpl. destruct (dynamic_names (embeddings p)) eqn:En.
      * rewrite IH. split.
        -- intros [Hall Hrest]. apply app_eq_nil in Hall. destruct Hall as [Hall Hown].
           apply map_eq_nil in Hown. split; [exact Hall|].
           constructor; [|exact Hrest]. unfold no_embeddings. rewrite Es.
           split; [exact Hown|discriminate].
        -- intros [-> H]. inversion H as [|? ? [Hown _] Hrest]; subst.
           rewrite Hown. simpl. auto.
      * split; [discriminate|]. intros [_ H].
        inversion H as [|? ? [Hown _] _]; subst. rewrite Hown in En. discriminate.
Qed.

(** X24.  The answer is [None] exactly when no data point carries any
    embedding (and every sentence has a first token, which carries none
    either); in particular it is [None] for an empty list of data
    points. *)
Theorem none_iff_no_embeddings :
  forall (data_points : list DT),
    identify_dynamic_embeddings DT Token is_Sentence first_token token_embeddings
      embeddings list_of_set data_points = inr None <->
    Forall (no_embeddings DT Token is_Sentence first_token token_embeddings embeddings)
      data_points.
Proof.
  intros data_points. unfold identify_dynamic_embeddings.
  rewrite loop_none_iff. tauto.
Qed.

Lemma loop_no_dynamic data_points :
  forall all,
    Forall (fun p => names_of p = inr []) data_points ->
    loop data_points [] all = inr None \/
    loop data_points [] all = inr (Some []).
Proof.
  induction data_points as [|p rest IH]; intros all H.
  - simpl. destruct all; [left; reflexivity|right]. now rewrite list_of_set_nil.
  - inversion H as [|? ? Hp Hrest]; subst. rewrite loop_cons, Hp. apply IH. exact Hrest.
Qed.

(** X25.  When embeddings exist but none of them is dynamic, the
    answer is the empty list, not [None]: the final [list(set(...))] is
    only ever reached with no dynamic name collected. *)
Theorem empty_list_when_nothing_is_dynamic :
  forall (data_points : list DT),
    Forall
      (fun p =>
         dynamic_names_of DT Token is_Sentence first_token token_embeddings embeddings p
         = inr [])
      data_points ->
    ~ Forall (no_embeddings DT Token is_Sentence first_token token_embeddings embeddings)
        data_points ->
    identify_dynamic_embeddings DT Token is_Sentence first_token token_embeddings
      embeddings list_of_set data_points = inr (Some []).
Proof.
  intros data_points Hnone Hsome. unfold identify_dynamic_embeddings.
  destruct (loop_no_dynamic data_points [] Hnone) as [H|H]; [|exact H].
  exfalso. apply Hsome. apply loop_none_iff in H. tauto.
Qed.

End DataPoints.

Lemma nodup_elements :
  forall names name, In name (nodup string_dec names) <-> In name names.
Proof. intros names name. apply nodup_In. Qed.

Lemma first_dynamic_data_point_decides_witness :
  example_identify ([static_point] ++ dynamic_sentence :: [empty_sentence])
  = inr (Some ["bert"%string; "doc"%string]).
Proof.
  unfold example_identify.
  destruct (first_dynamic_data_point_decides example_point (list (string * bool))
              sentence example_first_token (fun token => token) own (nodup string_dec)
              [static_point] [empty_sentence] dynamic_sentence) as [H _].
  - repeat constructor.
  - apply H. reflexivity.
Defined.

Lemma empty_list_when_nothing_is_dynamic_witness :
  example_identify [static_point] = inr (Some []).
Proof.
  apply (empty_list_when_nothing_is_dynamic example_point (list (string * bool))
           sentence example_first_token (fun token => token) own (nodup string_dec)
           nodup_elements).
  - repeat constructor.
  - intros H. inversion H as [|? ? [Hown _] _]; subst. discriminate Hown.
Defined.

End DynamicEmbeddingsFacts.

(** ** [Result] *)

Module ResultFacts.

Import Result.

Lemma getitem_has_key {value : Type} (d : dict value) (key : string) :
  has_key value d key = true ->
  exists v, getitem value d key = inr v /\ In (key, v) d.
Proof.
  induction d as [|[k v] rest IH]; simpl; [discriminate|].
  destruct (k =? key)%string eqn:E.
  - intros _. apply String.eqb_eq in E. subst. exists v. auto.
  - simpl. intros H. destruct (IH H) as (v' & H1 & H2). exists v'. auto.
Qed.

(** X26.  A [Result] can only be built from scores that contain the
    key ["loss"]: otherwise (and so with the default, empty, scores) the
    constructor raises [AssertionError].  On every [Result] that was
    built, the property [loss] never raises [KeyError]: it is the value
    the scores hold under ["loss"]. *)
Theorem result_needs_loss :
  forall (value report : Type) (main_score : Q) (detailed_results : string)
         (classification_report : report) (scores : dict value),
    (has_key value scores "loss" = false ->
     __init__ value report main_score detailed_results classification_report scores
     = inl AssertionError) /\
    __init__ value report main_score detailed_results classification_report []
    = inl AssertionError /\
    (forall r,
        __init__ value report main_score detailed_results classification_report scores
        = inr r ->
        exists v, loss value report r = inr v /\ In ("loss"%string, v) scores).
Proof.
  intros value report ms dr cr scores. unfold __init__. repeat split.
  - intros H. rewrite H. reflexivity.
  - destruct (has_key value scores "loss") eqn:E; simpl; [|discriminate].
    intros r H. injection H as <-. unfold loss. simpl.
    apply getitem_has_key. exact E.
Qed.

End ResultFacts.

(** ** [SGDW] *)

Module SGDWFacts.

Import SGDW PyFacts.

(** X27.  [SGDW.__init__] raises [ValueError], without reaching the
    constructor of the base class, exactly when a learning rate was
    given and is negative, or the momentum or the weight decay is
    negative, or Nesterov momentum is asked for with a momentum that is
    not positive or a dampening that is not zero; in every other case it
    is the base constructor called on the five defaults. *)
Theorem sgdw_init_checks :
  forall (params_arg optimizer : Type)
         (Optimizer__init__ : params_arg -> defaults -> exn + optimizer)
         (params : params_arg) (lr : lr_arg) (momentum dampening weight_decay : Q)
         (nesterov : bool),
    let invalid :=
      (exists l, lr = given l /\ (l < 0)%Q) \/ (momentum < 0)%Q \/ (weight_decay < 0)%Q \/
      (nesterov = true /\ ((momentum <= 0)%Q \/ ~ (dampening == 0)%Q)) in
    (invalid ->
     __init__ params_arg optimizer Optimizer__init__ params lr momentum dampening
       weight_decay nesterov = inl ValueError) /\
    (~ invalid ->
     __init__ params_arg optimizer Optimizer__init__ params lr momentum dampening
       weight_decay nesterov
     = Optimizer__init__ params
         {| default_lr := lr; default_momentum := momentum;
            default_dampening := dampening; default_weight_decay := weight_decay;
            default_nesterov := nesterov |}).
Proof.
  intros pa opt base params lr momentum dampening weight_decay nesterov invalid.
  subst invalid. unfold __init__.
  assert (Hlr : (match lr with required => false | given l => Qltb l 0 end) = true
                <-> exists l, lr = given l /\ (l < 0)%Q).
  { destruct lr as [|l]; split.
    - discriminate.
    - intros (l & H & _). discriminate.
    - intros H. apply Qltb_lt in H. eauto.
    - intros (l' & H & Hl). injection H as <-. apply Qltb_lt. exact Hl. }
  destruct (match lr with required => false | given l => Qltb l 0 end) eqn:Elr.
  { split; [reflexivity|]. intros H. exfalso. apply H. left. apply Hlr. reflexivity. }
  assert (Hnlr : ~ exists l, lr = given l /\ (l < 0)%Q).
  { intros H. apply Hlr in H. discriminate. }
  destruct (Qltb momentum 0) eqn:Em.
  { apply Qltb_lt in Em. split; [reflexivity|]. intros H. exfalso. apply H. auto. }
  apply Qltb_ge in Em.
  destruct (Qltb weight_decay 0) eqn:Ew.
  { apply Qltb_lt in Ew. split; [reflexivity|]. intros H. exfalso. apply H. auto. }
  apply Qltb_ge in Ew.
  destruct nesterov; simpl.
  - destruct (Qle_bool momentum 0) eqn:E1; simpl.
    + apply Qle_bool_iff in E1. split; [reflexivity|].
      intros H. exfalso. apply H. auto 6.
    + assert (Hm : ~ (momentum <= 0)%Q).
      { intros H. apply Qle_bool_iff in H. congruence. }
      destruct (Qeq_bool dampening 0) eqn:E2; simpl.
      * apply Qeq_bool_iff in E2. split; [|reflexivity].
        intros [H|[H|[H|[_ [H|H]]]]]; try contradiction; exfalso; Lqa.lra.
      * assert (Hd : ~ (dampening == 0)%Q).
        { intros H. apply Qeq_bool_iff in H. congruence. }
        split; [reflexivity|]. intros H. exfalso. apply H. auto 6.
  - split; [|reflexivity].
    intros [H|[H|[H|[H _]]]]; try contradiction; try discriminate; exfalso; Lqa.lra.
Qed.

Section Tensors.

Variable tensor : Type.
Variable zeros_like : tensor -> tensor.
Variable mul_ : tensor -> Q -> tensor.
Variable add_ : tensor -> tensor -> tensor.
Variable add_scaled : tensor -> Q -> tensor -> tensor.

Notation step_p := (step_parameter tensor zeros_like mul_ add_ add_scaled).
Notation step_g := (step_group tensor zeros_like mul_ add_ add_scaled).

Lemma step_parameter_frame (g : group tensor) (p : parameter tensor) :
  grad tensor (step_p g p) = grad tensor p /\
  (grad tensor p = None -> step_p g p = p) /\
  ((momentum tensor g == 0)%Q ->
   momentum_buffer tensor (step_p g p) = momentum_buffer tensor p) /\
  (~ (momentum tensor g == 0)%Q -> grad tensor p <> None ->
   momentum_buffer tensor (step_p g p) <> None).
Proof.
  unfold step_parameter. destruct (grad tensor p) as [d|] eqn:Eg.
  - destruct (Qeq_bool (momentum tensor g) 0) eqn:Em; simpl.
    + apply Qeq_bool_iff in Em. rewrite ?Eg.
      split; [reflexivity|]. split; [discriminate|]. split; [reflexivity|].
      intros H. contradiction.
    + assert (Hm : ~ (momentum tensor g == 0)%Q).
      { intros H. apply Qeq_bool_iff in H. congruence. }
      destruct (momentum_buffer tensor p); simpl; rewrite ?Eg;
        (split; [reflexivity|]); (split; [discriminate|]);
        (split; [intros H; contradiction|]); intros _ _; discriminate.
  - rewrite ?Eg. split; [reflexivity|]. split; [reflexivity|].
    split; [reflexivity|]. intros _ H. contradiction.
Qed.

(** X28.  One call of [SGDW.step] keeps the groups, their
    hyperparameters and their parameters' number and gradients; it
    leaves a parameter without gradient exactly as it was; with a
    momentum of zero it creates and changes no momentum buffer; with any
    other momentum every parameter that has a gradient has a momentum
    buffer afterwards.  Without a closure the call hands back [None]. *)
Theorem sgdw_step_frame :
  forall (param_groups : list (group tensor)),
    fst (step tensor zeros_like mul_ add_ add_scaled (loss_t := Q) param_groups None) = None /\
    Forall2
      (fun g g' =>
         lr tensor g' = lr tensor g /\ momentum tensor g' = momentum tensor g /\
         dampening tensor g' = dampening tensor g /\
         weight_decay tensor g' = weight_decay tensor g /\
         nesterov tensor g' = nesterov tensor g /\
         Forall2
           (fun p p' =>
              grad tensor p' = grad tensor p /\
              (grad tensor p = None -> p' = p) /\
              ((momentum tensor g == 0)%Q ->
               momentum_buffer tensor p' = momentum_buffer tensor p) /\
              (~ (momentum tensor g == 0)%Q -> grad tensor p <> None ->
               momentum_buffer tensor p' <> None))
           (params tensor g) (params tensor g'))
      param_groups
      (snd (step tensor zeros_like mul_ add_ add_scaled (loss_t := Q) param_groups None)).
Proof.
  intros param_groups. unfold step. simpl. split; [reflexivity|].
  induction param_groups as [|g rest IH]; simpl; constructor; [|exact IH].
  repeat split. simpl.
  induction (params tensor g) as [|p ps IHp]; simpl; constructor; [|exact IHp].
  apply step_parameter_frame.
Qed.

End Tensors.

(** X29.  Without momentum a scalar parameter with gradient [d] moves
    to [(1 - weight_decay) * data - lr * d]: the weight decay shrinks the
    parameter itself and is not multiplied by the learning rate. *)
Theorem sgdw_plain_update :
  forall (g : group Q) (p : parameter Q) (d : Q),
    (momentum Q g == 0)%Q ->
    grad Q p = Some d ->
    (data Q (scalar_step_parameter g p)
     == (1 - weight_decay Q g) * data Q p - lr Q g * d)%Q.
Proof.
  intros g p d Hm Hg. unfold scalar_step_parameter, step_parameter. rewrite Hg.
  apply Qeq_bool_iff in Hm. rewrite Hm. simpl.
  destruct (Qeq_bool (weight_decay Q g) 0) eqn:Ew; simpl.
  - apply Qeq_bool_iff in Ew. rewrite Ew. ring.
  - ring.
Qed.

Lemma sgdw_plain_update_witness :
  (data Q (scalar_step_parameter
             {| params := []; lr := 1 # 10; momentum := 0; dampening := 0;
                weight_decay := 1 # 100; nesterov := false |}
             {| data := 2; grad := Some 3; momentum_buffer := None |})
   == (1 - (1 # 100)) * 2 - (1 # 10) * 3)%Q.
Proof.
  apply (sgdw_plain_update
           {| params := []; lr := 1 # 10; momentum := 0; dampening := 0;
              weight_decay := 1 # 100; nesterov := false |}
           {| data := 2; grad := Some 3; momentum_buffer := None |} 3);
    reflexivity.
Defined.

(** X30.  With a momentum that is not zero, the first update of a
    scalar parameter takes its gradient as the momentum buffer (the
    dampening plays no part), and every later one replaces the buffer [b]
    by [momentum * b + (1 - dampening) * d]; the parameter then moves
    along the new buffer, or along [d + momentum * buffer] with
    Nesterov momentum. *)
Theorem sgdw_momentum_update :
  forall (g : group Q) (p : parameter Q) (d : Q),
    ~ (momentum Q g == 0)%Q ->
    grad Q p = Some d ->
    exists b',
      momentum_buffer Q (scalar_step_parameter g p) = Some b' /\
      (b' == match momentum_buffer Q p with
             | None => d
             | Some b => momentum Q g * b + (1 - dampening Q g) * d
             end)%Q /\
      (data Q (scalar_step_parameter g p)
       == (1 - weight_decay Q g) * data Q p
          - lr Q g * (if nesterov Q g then d + momentum Q g * b' else b'))%Q.
Proof.
  intros g p d Hm Hg. unfold scalar_step_parameter, step_parameter. rewrite Hg.
  destruct (Qeq_bool (momentum Q g) 0) eqn:Em.
  { apply Qeq_bool_iff in Em. contradiction. }
  simpl.
  destruct (momentum_buffer Q p) as [b|]; simpl;
    (eexists; split; [reflexivity|]; split; [ring|]);
    destruct (Qeq_bool (weight_decay Q g) 0) eqn:Ew; simpl;
    try (apply Qeq_bool_iff in Ew; rewrite Ew);
    destruct (nesterov Q g); ring.
Qed.

Lemma sgdw_momentum_update_witness :
  exists b',
    momentum_buffer Q
      (scalar_step_parameter
         {| params := []; lr := 1 # 10; momentum := 9 # 10; dampening := 1 # 2;
            weight_decay := 0; nesterov := false |}
         {| data := 2; grad := Some 3; momentum_buffer := Some 1 |}) = Some b' /\
    (b' == (9 # 10) * 1 + (1 - (1 # 2)) * 3)%Q.
Proof.
  destruct (sgdw_momentum_update
              {| params := []; lr := 1 # 10; momentum := 9 # 10; dampening := 1 # 2;
                 weight_decay := 0; nesterov := false |}
              {| data := 2; grad := Some 3; momentum_buffer := Some 1 |} 3)
    as (b' & H1 & H2 & _).
  - intros H. vm_compute in H. discriminate.
  - reflexivity.
  - exists b'. split; [exact H1|exact H2].
Defined.

End SGDWFacts.
